(** * Moroccan bank identifiers: validators/bank.ts

    A shallow embedding of [src/validators/bank.ts]: the IBAN and RIB
    validators, the bank and SWIFT resolvers and the amount-to-words
    converter, with the properties the specification states about them.

    Conventions of the embedding.
    - A JavaScript string is the list of its UTF-16 code units.
    - A JavaScript number is [NaN], an infinity or a rational: every finite
      double is a rational.  A product of two doubles is rounded to binary64,
      to the nearest double with ties to even, as the double arithmetic does.
      A rational that is not a double ([999 # 1000]) stands for a decimal
      notation and is multiplied exactly.  Sums, differences, remainders,
      [Math.floor], [Math.round] and the comparisons are exact: on the
      operands the module gives them (integers far below 2^53, an amount and
      its integer part) the exact result is a double, hence the result of
      the double arithmetic.  Quotients are exact as well; the module only
      takes their [Math.floor], which the rounding of the quotient does not
      change for a dividend below 2^53.  The sign of zero is not
      represented.
    - [try { ... } catch (error) { ... }] is an error monad: a computation
      completes normally with a value or abruptly with the exception thrown.
    - A handler tests [error instanceof BankValidationException] and logs the
      exception with [console.error].  On an exception of the module and on a
      TypeError of the language this only writes to the console.  On a value
      thrown by a method of the argument it runs code of that value (a
      [getPrototypeOf] trap, an accessor [code] or [message]), which can
      throw in turn.
    - An argument is any value of the language.  The functions call the
      method [replace] of their argument: the one of strings, or the one the
      object passed carries.
    - The registry [MOROCCAN_BANKS] and [String.prototype.toUpperCase] are
      parameters of the validators. *)

From Stdlib Require Import String Ascii.
From Stdlib Require Import ZArith QArith Qabs Qround Qreduction Qcanon Qpower.
From Stdlib Require Import List Bool Lia Lqa.
Import ListNotations.

Open Scope Z_scope.

(** ** Strings *)

Definition jsstring := list Z.

(** A literal of the source, for the literals written in Basic Latin. *)
Definition lit (s : string) : jsstring :=
  map (fun a => Z.of_N (N_of_ascii a)) (list_ascii_of_string s).

Definition str_eqb (a b : jsstring) : bool :=
  if list_eq_dec Z.eq_dec a b then true else false.

(** The class [\s] of a regular expression without the [u] flag: the
    WhiteSpace and LineTerminator code points of ECMAScript. *)
Definition isWhiteSpace (c : Z) : bool :=
  ((9 <=? c) && (c <=? 13)) || (c =? 32) || (c =? 160) || (c =? 5760)
  || ((8192 <=? c) && (c <=? 8202)) || (c =? 8232) || (c =? 8233)
  || (c =? 8239) || (c =? 8287) || (c =? 12288) || (c =? 65279).

(** The class [[\s-]]. *)
Definition isWhiteSpaceOrHyphen (c : Z) : bool :=
  isWhiteSpace c || (c =? 45).

(** The class [\d]. *)
Definition isDigit (c : Z) : bool := (48 <=? c) && (c <=? 57).

(** [s.replace(/[class]/g, '')]: every code unit of the class is removed. *)
Definition replace_all (class : Z -> bool) (s : jsstring) : jsstring :=
  filter (fun c => negb (class c)) s.

Definition clamp (len i : Z) : Z := Z.max 0 (Z.min i len).

(** [s.substring(start, end)]: both indices are clamped to [0, length] and
    swapped when they come in the wrong order. *)
Definition substring (s : jsstring) (start stop : Z) : jsstring :=
  let len := Z.of_nat (length s) in
  let a := clamp len start in
  let b := clamp len stop in
  let from := Z.min a b in
  let to := Z.max a b in
  firstn (Z.to_nat (to - from)) (skipn (Z.to_nat from) s).

(** [s.slice(start, end)] and [s.slice(start)] ([stop = None]): a negative
    index counts from the end of the string. *)
Definition slice_index (len i : Z) : Z :=
  if i <? 0 then Z.max (len + i) 0 else Z.min i len.

Definition slice (s : jsstring) (start : Z) (stop : option Z) : jsstring :=
  let len := Z.of_nat (length s) in
  let from := slice_index len start in
  let to := match stop with Some e => slice_index len e | None => len end in
  firstn (Z.to_nat (to - from)) (skipn (Z.to_nat from) s).

Definition startsWith (s prefix : jsstring) : bool :=
  str_eqb (firstn (length prefix) s) prefix.

(** [s.split('')] and [a.join('')]. *)
Definition split_chars (s : jsstring) : list jsstring :=
  map (fun c => [c]) s.

Definition join (a : list jsstring) : jsstring := concat a.

Fixpoint dropWhile (p : Z -> bool) (s : jsstring) : jsstring :=
  match s with
  | [] => []
  | c :: t => if p c then dropWhile p t else s
  end.

(** [s.trim()]. *)
Definition trim (s : jsstring) : jsstring :=
  rev (dropWhile isWhiteSpace (rev (dropWhile isWhiteSpace s))).

(** ** Numbers *)

Inductive number : Type :=
| NaN
| Infinity (negative : bool)
| Finite (q : Q).

Definition ofZ (z : Z) : number := Finite (inject_Z z).

Definition Qlt_bool (x y : Q) : bool := negb (Qle_bool y x).

(** *** Binary64 *)

Definition pow2 (k : Z) : Q := (2 ^ k)%Q.

(** The binade of a positive rational [y]: the integer [e] with
    [2^e <= y < 2^(e+1)]. *)
Definition binade (y : Q) : Z :=
  let k := Z.log2 (Qnum y) - Z.log2 (Zpos (Qden y)) in
  if Qle_bool (pow2 k) y then k else k - 1.

(** The nearest integer, a tie going to the even one. *)
Definition roundTiesToEven (m : Q) : Z :=
  let f := Qfloor m in
  match (m - inject_Z f ?= 1 # 2)%Q with
  | Lt => f
  | Gt => f + 1
  | Eq => if Z.even f then f else f + 1
  end.

(** The nearest number with a significand of 53 bits and an exponent of at
    least -1022 (below, the numbers are the multiples of 2^-1074): the
    rounding of binary64 before the test of overflow. *)
Definition round64q (x : Q) : Q :=
  let x := Qred x in
  if Qeq_bool x 0 then 0%Q
  else
    let e := Z.max (binade (Qabs x)) (-1022) in
    let ulp := pow2 (e - 52) in
    let r := (inject_Z (roundTiesToEven (Qabs x / ulp)) * ulp)%Q in
    if Qlt_bool x 0 then (- r)%Q else r.

(** The double nearest to a rational; from 2^1024 on, an infinity. *)
Definition round64 (x : Q) : number :=
  let r := round64q x in
  if Qle_bool (pow2 1024) (Qabs r) then Infinity (Qlt_bool r 0)
  else Finite (Qred r).

(** The rationals that are doubles. *)
Definition is_double (x : Q) : bool :=
  Qeq_bool (round64q x) x && Qlt_bool (Qabs x) (pow2 1024).

Module Num.

(** [a === b] on numbers. *)
Definition strict_eq (a b : number) : bool :=
  match a, b with
  | Finite x, Finite y => Qeq_bool x y
  | Infinity s, Infinity t => Bool.eqb s t
  | _, _ => false
  end.

(** [a < b]. *)
Definition lt (a b : number) : bool :=
  match a, b with
  | NaN, _ | _, NaN => false
  | Finite x, Finite y => Qlt_bool x y
  | Infinity s, Infinity t => s && negb t
  | Infinity s, Finite _ => s
  | Finite _, Infinity t => negb t
  end.

(** [a > b], [a <= b] and [a >= b]: every comparison with [NaN] is false. *)
Definition gt (a b : number) : bool := lt b a.

Definition le (a b : number) : bool :=
  match a, b with
  | NaN, _ | _, NaN => false
  | _, _ => negb (lt b a)
  end.

Definition ge (a b : number) : bool := le b a.

Definition isNaN (a : number) : bool :=
  match a with NaN => true | _ => false end.

Definition neg (a : number) : number :=
  match a with
  | NaN => NaN
  | Infinity s => Infinity (negb s)
  | Finite x => Finite (Qred (- x))
  end.

Definition add (a b : number) : number :=
  match a, b with
  | NaN, _ | _, NaN => NaN
  | Infinity s, Infinity t => if Bool.eqb s t then Infinity s else NaN
  | Infinity s, Finite _ => Infinity s
  | Finite _, Infinity t => Infinity t
  | Finite x, Finite y => Finite (Qred (x + y))
  end.

Definition sub (a b : number) : number := add a (neg b).

Definition Qsign_neg (x : Q) : bool := Qlt_bool x 0.

(** [a * b]: the product of two doubles is the double nearest to it. *)
Definition mul (a b : number) : number :=
  match a, b with
  | NaN, _ | _, NaN => NaN
  | Infinity s, Infinity t => Infinity (xorb s t)
  | Infinity s, Finite y =>
      if Qeq_bool y 0 then NaN else Infinity (xorb s (Qsign_neg y))
  | Finite x, Infinity t =>
      if Qeq_bool x 0 then NaN else Infinity (xorb (Qsign_neg x) t)
  | Finite x, Finite y =>
      if is_double x && is_double y then round64 (x * y)
      else Finite (Qred (x * y))
  end.

Definition div (a b : number) : number :=
  match a, b with
  | NaN, _ | _, NaN => NaN
  | Infinity _, Infinity _ => NaN
  | Infinity s, Finite y => Infinity (xorb s (Qsign_neg y))
  | Finite _, Infinity _ => Finite 0
  | Finite x, Finite y =>
      if Qeq_bool y 0 then
        if Qeq_bool x 0 then NaN else Infinity (Qsign_neg x)
      else Finite (Qred (x / y))
  end.

(** Truncation towards zero. *)
Definition Qtrunc (x : Q) : Z := Z.quot (Qnum x) (Zpos (Qden x)).

(** [a % b]: the remainder has the sign of the dividend. *)
Definition rem (a b : number) : number :=
  match a, b with
  | NaN, _ | _, NaN => NaN
  | Infinity _, _ => NaN
  | Finite x, Infinity _ => Finite x
  | Finite x, Finite y =>
      if Qeq_bool y 0 then NaN
      else Finite (Qred (x - y * inject_Z (Qtrunc (x / y))))
  end.

End Num.

Module Math.

Definition abs (a : number) : number :=
  match a with
  | NaN => NaN
  | Infinity _ => Infinity false
  | Finite x => Finite (Qred (Qabs x))
  end.

Definition floor (a : number) : number :=
  match a with
  | Finite x => ofZ (Qfloor x)
  | _ => a
  end.

(** [Math.round]: the nearest integer, a tie going up. *)
Definition round (a : number) : number :=
  match a with
  | Finite x => ofZ (Qfloor (x + (1 # 2)))
  | _ => a
  end.

(** [Math.pow(10, k)] for [k] the length of a string. *)
Definition pow10 (k : nat) : number := ofZ (10 ^ Z.of_nat k).

End Math.

(** The decimal digits of a natural number, most significant first. *)
Fixpoint digits_loop (fuel : nat) (n : Z) (acc : jsstring) : jsstring :=
  match fuel with
  | O => acc
  | S fuel' =>
      let acc' := (48 + n mod 10) :: acc in
      if n <? 10 then acc' else digits_loop fuel' (n / 10) acc'
  end.

Definition digits (n : Z) : jsstring :=
  digits_loop (S (Z.to_nat (Z.log2 n))) n [].

Definition integerToString (z : Z) : jsstring :=
  if z <? 0 then 45 :: digits (- z) else digits z.

(** [n.toString()].  The numbers this file prints are [NaN] and integers
    below 10^21 (a code unit minus 55, the result of [parseInt] on at most
    seven characters); on those the definition is the one of ECMAScript.  A
    number with a fractional part never reaches it and prints as its integer
    part. *)
Definition numberToString (a : number) : jsstring :=
  match a with
  | NaN => lit "NaN"
  | Infinity s => if s then lit "-Infinity" else lit "Infinity"
  | Finite x => integerToString (Num.Qtrunc x)
  end.

(** The value of a code unit as a digit of [parseInt]. *)
Definition digitValue (c : Z) : option Z :=
  if (48 <=? c) && (c <=? 57) then Some (c - 48)
  else if (97 <=? c) && (c <=? 122) then Some (c - 87)
  else if (65 <=? c) && (c <=? 90) then Some (c - 55)
  else None.

(** The longest prefix of digits of the radix; [None] when it is empty. *)
Fixpoint parseDigits (radix : Z) (s : jsstring) (acc : option Z) : option Z :=
  match s with
  | [] => acc
  | c :: t =>
      match digitValue c with
      | Some d =>
          if d <? radix then
            parseDigits radix t
              (Some (match acc with Some a => a * radix + d | None => d end))
          else acc
      | None => acc
      end
  end.

Definition stripHexPrefix (s : jsstring) : option jsstring :=
  match s with
  | 48 :: 120 :: t => Some t
  | 48 :: 88 :: t => Some t
  | _ => None
  end.

(** [parseInt(s, radix)] and [parseInt(s)] ([radix = None]): leading white
    space is skipped, then a sign, then (radix 16 or none) a [0x] prefix; the
    longest prefix of digits is the value, and [NaN] when there is none. *)
Definition parseInt (s : jsstring) (radix : option Z) : number :=
  let s1 := dropWhile isWhiteSpace s in
  let '(negative, s2) :=
    match s1 with
    | c :: t =>
        if c =? 45 then (true, t)
        else if c =? 43 then (false, t)
        else (false, s1)
    | [] => (false, s1)
    end in
  let r := match radix with Some r => r | None => 0 end in
  if negb (r =? 0) && ((r <? 2) || (36 <? r)) then NaN
  else
    let '(r', s3) :=
      if (r =? 0) || (r =? 16) then
        match stripHexPrefix s2 with
        | Some t => (16, t)
        | None => ((if r =? 0 then 10 else r), s2)
        end
      else (r, s2) in
    match parseDigits r' s3 None with
    | None => NaN
    | Some v => ofZ (if negative then - v else v)
    end.

(** ** Exceptions and completions *)

Inductive BankValidationError : Type :=
| INVALID_INPUT_TYPE
| INVALID_IBAN_FORMAT
| INVALID_BANK_CODE
| INVALID_IBAN_CHECKSUM
| INVALID_RIB_FORMAT
| INVALID_RIB_LENGTH
| INVALID_RIB_CHECKSUM
| BANK_NOT_FOUND
| INVALID_AMOUNT
| BRANCH_NOT_FOUND.

(** The string of each code. *)
Definition error_code (e : BankValidationError) : jsstring :=
  match e with
  | INVALID_INPUT_TYPE => lit "BANK_001"
  | INVALID_IBAN_FORMAT => lit "BANK_002"
  | INVALID_BANK_CODE => lit "BANK_003"
  | INVALID_IBAN_CHECKSUM => lit "BANK_004"
  | INVALID_RIB_FORMAT => lit "BANK_005"
  | INVALID_RIB_LENGTH => lit "BANK_006"
  | INVALID_RIB_CHECKSUM => lit "BANK_007"
  | BANK_NOT_FOUND => lit "BANK_008"
  | INVALID_AMOUNT => lit "BANK_009"
  | BRANCH_NOT_FOUND => lit "BANK_010"
  end.

(** What a [try] block can throw: the exception of the module, made by the
    module with its code; the TypeError of the language; or a value that a
    method of the argument throws.  Such a value is described by what the
    handler's look at it does, that is [error instanceof
    BankValidationException] and, when the test holds, the reading of
    [error.code] and [error.message] for the log: it completes
    ([inspection = None]: a primitive, an ordinary object, an instance of the
    exception of the module) or it throws in turn ([inspection = Some e]: a
    Proxy whose [getPrototypeOf] trap throws [e], an accessor that throws
    [e]). *)
#[warnings="-register-all"] Inductive Exception : Type :=
| BankValidationException (code : BankValidationError)
| TypeError
| ThrownValue (inspection : option Exception).

Inductive Completion (A : Type) : Type :=
| Normal (a : A)
| Throw (e : Exception).

Arguments Normal {A} a.
Arguments Throw {A} e.

Definition bind {A B} (c : Completion A) (k : A -> Completion B)
  : Completion B :=
  match c with
  | Normal a => k a
  | Throw e => Throw e
  end.

Notation "x <- c ;; k" := (bind c (fun x => k))
  (at level 61, c at next level, right associativity).

(** [if (cond) throw e;] *)
Definition throw_if (cond : bool) (e : Exception) : Completion unit :=
  if cond then Throw e else Normal tt.

(** [try { body } catch (error) { handler }] *)
Definition try_catch {A} (body : Completion A)
  (handler : Exception -> Completion A) : Completion A :=
  match body with
  | Normal a => Normal a
  | Throw e => handler e
  end.

(** [if (error instanceof BankValidationException) { console.error(...) }],
    the first statement of every handler. *)
Definition log_BankValidationException (error : Exception)
  : Completion unit :=
  match error with
  | ThrownValue (Some e) => Throw e
  | _ => Normal tt
  end.

(** ** Values *)

(** The values of the language, as far as the module can tell them apart.
    [VStringObject s] is a String object that wraps [s].  [VObject replace]
    is any other object: [replace] is absent when the object has no callable
    property of that name, and is otherwise what a call of the method with a
    regular expression of the given class and the empty string does, return
    a value or throw one.  Such an object has none of the other methods of
    strings ([substring], [startsWith], [slice]): an object that carries
    methods of that name of its own is not a value of this type. *)
#[warnings="-register-all"] Inductive JSValue : Type :=
| VUndefined
| VNull
| VBoolean (b : bool)
| VNumber (n : number)
| VBigInt (z : Z)
| VString (s : jsstring)
| VSymbol
| VStringObject (s : jsstring)
| VObject (replace : option ((Z -> bool) -> Completion JSValue)).

(** The results of [typeof].  The module compares them with ['string'] and
    ['number'] only, and [TObject] stands for ['function'] as well. *)
Inductive JSType : Type :=
| TUndefined | TObject | TBoolean | TNumber | TBigInt | TString | TSymbol.

Definition typeof (v : JSValue) : JSType :=
  match v with
  | VUndefined => TUndefined
  | VNull => TObject
  | VBoolean _ => TBoolean
  | VNumber _ => TNumber
  | VBigInt _ => TBigInt
  | VString _ => TString
  | VSymbol => TSymbol
  | VStringObject _ => TObject
  | VObject _ => TObject
  end.

Definition JSType_eqb (a b : JSType) : bool :=
  match a, b with
  | TUndefined, TUndefined | TObject, TObject | TBoolean, TBoolean
  | TNumber, TNumber | TBigInt, TBigInt | TString, TString
  | TSymbol, TSymbol => true
  | _, _ => false
  end.

(** ToBoolean, as the operator [&&] applies it. *)
Definition truthy (v : JSValue) : bool :=
  match v with
  | VUndefined | VNull => false
  | VBoolean b => b
  | VNumber n =>
      match n with
      | NaN => false
      | Infinity _ => true
      | Finite x => negb (Qeq_bool x 0)
      end
  | VBigInt z => negb (z =? 0)
  | VString s => match s with [] => false | _ => true end
  | VSymbol | VStringObject _ | VObject _ => true
  end.

(** [s === v] for a string [s]. *)
Definition string_strict_eq (s : jsstring) (v : JSValue) : bool :=
  match v with
  | VString t => str_eqb s t
  | _ => false
  end.

(** [v.replace(/[class]/g, '')] on a value of any type.  A string and a
    String object have the method of strings.  An object has the method it
    carries.  Reading a property of [undefined] or [null] throws a TypeError,
    and so does calling the property [replace] of a value that has none (a
    boolean, a number, an object without it). *)
Definition call_replace (v : JSValue) (class : Z -> bool)
  : Completion JSValue :=
  match v with
  | VString s | VStringObject s => Normal (VString (replace_all class s))
  | VObject (Some replace) => replace class
  | _ => Throw TypeError
  end.

(** The string on which [substring], [startsWith], [slice], [toUpperCase]
    or [length] is called: a string or a String object gives the string, and
    on any other value the call of the method throws a TypeError. *)
Definition string_receiver (v : JSValue) : Completion jsstring :=
  match v with
  | VString s | VStringObject s => Normal s
  | _ => Throw TypeError
  end.

(** ** The bank registry *)

Module BranchDetails.

(** Modelled from the spec: the type of a branch record is declared in
    [types/bank], outside the sources at hand.  A branch has a [code] and a
    branch-specific [swift]. *)
Record t : Type := {
  code : jsstring;
  swift : jsstring
}.

End BranchDetails.

(** Modelled from the spec: the type [BankDetails] is declared in
    [types/bank], outside the sources at hand; the fields are the ones the
    validators read.  The two regular expressions are the predicates their
    [test] method computes (patterns are total functions over strings),
    [branches] is optional, and [ribLength] is an integer. *)
Record BankDetails : Type := {
  code : jsstring;
  active : bool;
  ibanRegex : jsstring -> bool;
  ribLength : Z;
  ribRegex : jsstring -> bool;
  swift : jsstring;
  branches : option (list BranchDetails.t)
}.

(** ** The words of the converter *)

Definition units : list jsstring :=
  [ lit ""; lit "un"; lit "deux"; lit "trois"; lit "quatre"; lit "cinq";
    lit "six"; lit "sept"; lit "huit"; lit "neuf" ].

Definition teens : list jsstring :=
  [ lit "dix"; lit "onze"; lit "douze"; lit "treize"; lit "quatorze";
    lit "quinze"; lit "seize"; lit "dix-sept"; lit "dix-huit";
    lit "dix-neuf" ].

Definition tens : list jsstring :=
  [ lit ""; lit "dix"; lit "vingt"; lit "trente"; lit "quarante";
    lit "cinquante"; lit "soixante"; lit "soixante-dix"; lit "quatre-vingt";
    lit "quatre-vingt-dix" ].

(** [a[i]] for a number [i]: the element when [i] is an integer index of the
    array, [undefined] ([None]) otherwise. *)
Definition index (a : list jsstring) (i : number) : option jsstring :=
  match i with
  | Finite x =>
      if Qeq_bool x (inject_Z (Qfloor x)) && (0 <=? Qfloor x)
      then nth_error a (Z.to_nat (Qfloor x))
      else None
  | _ => None
  end.

(** The string a concatenation makes of an array element. *)
Definition to_str (v : option jsstring) : jsstring :=
  match v with
  | Some s => s
  | None => lit "undefined"
  end.

(** [numeric[i]] as [parseInt] reads it. *)
Definition char_at (s : jsstring) (i : nat) : jsstring :=
  match nth_error s i with
  | Some c => [c]
  | None => lit "undefined"
  end.

Definition convertLessThanThousand (n : number) : jsstring :=
  let '(result, n) :=
    if Num.ge n (ofZ 100) then
      let result :=
        (if Num.ge n (ofZ 200)
         then to_str (index units (Math.floor (Num.div n (ofZ 100))))
              ++ lit " "
         else []) ++ lit "cent" in
      let n := Num.rem n (ofZ 100) in
      (if Num.gt n (ofZ 0) then result ++ lit " " else result, n)
    else ([], n) in
  if Num.ge n (ofZ 80) && Num.lt n (ofZ 100) then
    result ++ (lit "quatre-vingt"
               ++ (if Num.strict_eq n (ofZ 80) then []
                   else lit "-" ++ to_str (index units (Num.sub n (ofZ 80)))))
  else if Num.ge n (ofZ 20) then
    let result :=
      result ++ to_str (index tens (Math.floor (Num.div n (ofZ 10)))) in
    if Num.gt (Num.rem n (ofZ 10)) (ofZ 0)
    then result ++ (lit "-" ++ to_str (index units (Num.rem n (ofZ 10))))
    else result
  else if Num.ge n (ofZ 10) then
    result ++ to_str (index teens (Num.sub n (ofZ 10)))
  else if Num.gt n (ofZ 0) then
    result ++ to_str (index units n)
  else result.

Definition zero_dirhams : jsstring := lit "z" ++ [233] ++ lit "ro dirhams".

Definition as_number (v : JSValue) : number :=
  match v with
  | VNumber n => n
  | _ => NaN
  end.

Definition madToWords_try (amount : JSValue) : Completion jsstring :=
  _ <- throw_if (negb (JSType_eqb (typeof amount) TNumber)
                 || Num.isNaN (as_number amount))
         (BankValidationException INVALID_AMOUNT) ;;
  let amount := as_number amount in
  if Num.strict_eq amount (ofZ 0) then Normal zero_dirhams
  else
    let result := [] in
    let isNegative := Num.lt amount (ofZ 0) in
    let amount := Math.abs amount in
    let whole := Math.floor amount in
    let cents := Math.round (Num.mul (Num.sub amount whole) (ofZ 100)) in
    let result :=
      if Num.gt whole (ofZ 0) then
        let millions := Math.floor (Num.div whole (ofZ 1000000)) in
        let thousands :=
          Math.floor (Num.div (Num.rem whole (ofZ 1000000)) (ofZ 1000)) in
        let remainder := Num.rem whole (ofZ 1000) in
        let result :=
          if Num.gt millions (ofZ 0) then
            result ++ (convertLessThanThousand millions ++ lit " million"
                       ++ (if Num.gt millions (ofZ 1) then lit "s "
                           else lit " "))
          else result in
        let result :=
          if Num.gt thousands (ofZ 0) then
            result ++ (if Num.strict_eq thousands (ofZ 1) then lit "mille "
                       else convertLessThanThousand thousands
                            ++ lit " mille ")
          else result in
        let result :=
          if Num.gt remainder (ofZ 0)
          then result ++ convertLessThanThousand remainder
          else result in
        result ++ (lit " dirham"
                   ++ (if negb (Num.strict_eq whole (ofZ 1)) then lit "s"
                       else []))
      else result in
    let result :=
      if Num.gt cents (ofZ 0) then
        let result :=
          if Num.gt whole (ofZ 0) then result ++ lit " et " else result in
        result ++ (convertLessThanThousand cents ++ lit " centime"
                   ++ (if negb (Num.strict_eq cents (ofZ 1)) then lit "s"
                       else []))
      else result in
    Normal ((if isNegative then lit "moins " else []) ++ trim result).

Definition madToWords (amount : JSValue) : Completion jsstring :=
  try_catch (madToWords_try amount)
    (fun error =>
       _ <- log_BankValidationException error ;;
       Normal (lit "erreur de conversion")).

(** ** The validators and the resolvers *)

(** [/^MA\d{26}$/.test(s)] *)
Definition test_MA26 (s : jsstring) : bool :=
  match s with
  | 77 :: 65 :: t => (length t =? 26)%nat && forallb isDigit t
  | _ => false
  end.

(** [/\d/.test(s)] *)
Definition test_digit (s : jsstring) : bool := existsb isDigit s.

(** [c.charCodeAt(0)] *)
Definition charCodeAt0 (c : jsstring) : number :=
  match c with
  | u :: _ => ofZ u
  | [] => NaN
  end.

(** The loop of [isValidIBAN] over the indices of [numeric]; [fuel] bounds
    the number of iterations. *)
Fixpoint mod97_loop (numeric : jsstring) (fuel i : nat) (remainder : number)
  : number :=
  match fuel with
  | O => remainder
  | S fuel' =>
      if (i <? length numeric)%nat then
        mod97_loop numeric fuel' (S i)
          (Num.rem
             (Num.add (Num.mul remainder (ofZ 10))
                (parseInt (char_at numeric i) None))
             (ofZ 97))
      else remainder
  end.

(** The loop of [isValidRIB] that cuts the payload, seven characters at a
    time. *)
Fixpoint chunks_loop (payload : jsstring) (fuel i : nat)
  (chunks : list number) : list number :=
  match fuel with
  | O => chunks
  | S fuel' =>
      if (i <? length payload)%nat then
        chunks_loop payload fuel' (i + 7)
          (chunks
           ++ [parseInt
                 (slice payload (Z.of_nat i) (Some (Z.of_nat i + 7)))
                 (Some 10)])
      else chunks
  end.

Definition is_none {A} (o : option A) : bool :=
  match o with None => true | Some _ => false end.

Section Validators.

(** The registry [MOROCCAN_BANKS] of [constants/banks], which is data
    supplied to the validators. *)
Variable MOROCCAN_BANKS : list BankDetails.

(** [String.prototype.toUpperCase], the Unicode case conversion of the
    platform. *)
Variable toUpperCase : jsstring -> jsstring.

(** [MOROCCAN_BANKS.find(b => b.code === bankCode && b.active)] *)
Definition find_bank (bankCode : jsstring) : option BankDetails :=
  find (fun b => str_eqb (code b) bankCode && active b) MOROCCAN_BANKS.

Definition isValidIBAN_try (iban : JSValue) : Completion bool :=
  _ <- throw_if (negb (JSType_eqb (typeof iban) TString))
         (BankValidationException INVALID_INPUT_TYPE) ;;
  stripped <- call_replace iban isWhiteSpace ;;
  stripped <- string_receiver stripped ;;
  let cleanIBAN := toUpperCase stripped in
  _ <- throw_if (negb (test_MA26 cleanIBAN))
         (BankValidationException INVALID_IBAN_FORMAT) ;;
  let bankCode := substring cleanIBAN 4 7 in
  match find_bank bankCode with
  | None => Throw (BankValidationException INVALID_BANK_CODE)
  | Some bank =>
      _ <- throw_if (negb (ibanRegex bank cleanIBAN))
             (BankValidationException INVALID_IBAN_FORMAT) ;;
      let rearranged := slice cleanIBAN 4 None ++ slice cleanIBAN 0 (Some 4) in
      let numeric :=
        join (map (fun c =>
                     if test_digit c then c
                     else numberToString (Num.sub (charCodeAt0 c) (ofZ 55)))
                (split_chars rearranged)) in
      let remainder := mod97_loop numeric (length numeric) 0 (ofZ 0) in
      _ <- throw_if (negb (Num.strict_eq remainder (ofZ 1)))
             (BankValidationException INVALID_IBAN_CHECKSUM) ;;
      Normal true
  end.

Definition isValidIBAN (iban : JSValue) : Completion bool :=
  try_catch (isValidIBAN_try iban)
    (fun error => _ <- log_BankValidationException error ;; Normal false).

Definition isValidRIB_try (rib : JSValue) : Completion bool :=
  cleanRIB <- call_replace rib isWhiteSpaceOrHyphen ;;
  cleanRIB <- string_receiver cleanRIB ;;
  let bankCode := substring cleanRIB 0 3 in
  match find_bank bankCode with
  | None => Throw (BankValidationException BANK_NOT_FOUND)
  | Some bank =>
      _ <- throw_if (negb (Z.of_nat (length cleanRIB) =? ribLength bank))
             (BankValidationException INVALID_RIB_LENGTH) ;;
      _ <- throw_if (negb (ribRegex bank cleanRIB))
             (BankValidationException INVALID_RIB_FORMAT) ;;
      let payload := slice cleanRIB 0 (Some (-2)) in
      let actualKey := parseInt (slice cleanRIB (-2) None) (Some 10) in
      let chunks := chunks_loop payload (length payload) 0 [] in
      let remainder :=
        fold_left
          (fun remainder chunk =>
             Num.rem
               (Num.add
                  (Num.mul remainder
                     (Math.pow10 (length (numberToString chunk))))
                  chunk)
               (ofZ 97))
          chunks (ofZ 0) in
      let expectedKey := Num.rem (Num.sub (ofZ 97) remainder) (ofZ 97) in
      _ <- throw_if (negb (Num.strict_eq expectedKey actualKey))
             (BankValidationException INVALID_RIB_CHECKSUM) ;;
      Normal true
  end.

Definition isValidRIB (rib : JSValue) : Completion bool :=
  try_catch (isValidRIB_try rib)
    (fun error => _ <- log_BankValidationException error ;; Normal false).

Definition getBankDetails_try (code : JSValue)
  : Completion (option BankDetails) :=
  cleanCode <- call_replace code isWhiteSpaceOrHyphen ;;
  cleanCode <- string_receiver cleanCode ;;
  let bankCode :=
    if startsWith cleanCode (lit "MA") then substring cleanCode 4 7
    else substring cleanCode 0 3 in
  let bank := find_bank bankCode in
  _ <- throw_if (is_none bank) (BankValidationException BANK_NOT_FOUND) ;;
  Normal bank.

(** The result [None] is [undefined]. *)
Definition getBankDetails (code : JSValue) : Completion (option BankDetails) :=
  try_catch (getBankDetails_try code)
    (fun error => _ <- log_BankValidationException error ;; Normal None).

Definition getSwiftCode_try (code branch : JSValue)
  : Completion (option jsstring) :=
  bank <- getBankDetails code ;;
  match bank with
  | None => Throw (BankValidationException BANK_NOT_FOUND)
  | Some bank =>
      match (if truthy branch then branches bank else None) with
      | Some bank_branches =>
          match find (fun b => string_strict_eq (BranchDetails.code b) branch)
                  bank_branches with
          | None => Throw (BankValidationException BRANCH_NOT_FOUND)
          | Some branchDetails =>
              Normal (Some (BranchDetails.swift branchDetails))
          end
      | None => Normal (Some (swift bank))
      end
  end.

Definition getSwiftCode (code branch : JSValue)
  : Completion (option jsstring) :=
  try_catch (getSwiftCode_try code branch)
    (fun error => _ <- log_BankValidationException error ;; Normal None).

End Validators.

(** * The notions of the specification *)

(** ** Normalisation *)

(** The normalisation of an IBAN: white space stripped, then upper case. *)
Definition normalizeIBAN (toUpperCase : jsstring -> jsstring) (s : jsstring)
  : jsstring :=
  toUpperCase (replace_all isWhiteSpace s).

(** The normalisation of a RIB and of the argument of the resolvers: white
    space and hyphens stripped. *)
Definition normalizeRIB (s : jsstring) : jsstring :=
  replace_all isWhiteSpaceOrHyphen s.

Definition isDecimalDigit (c : Z) : Prop := 48 <= c <= 57.

Definition no_white_space (t : jsstring) : Prop :=
  Forall (fun c => isWhiteSpace c = false) t.

(** A string without white space or hyphen, and a string whose first
    character is neither. *)
Definition clean_string (s : jsstring) : Prop :=
  Forall (fun c => isWhiteSpaceOrHyphen c = false) s.

Definition clean_head (s : jsstring) : Prop :=
  match s with
  | c :: _ => isWhiteSpaceOrHyphen c = false
  | [] => True
  end.

(** What the properties below use of [toUpperCase]: a string of digits and
    upper-case Basic Latin letters is already in upper case; the conversion
    of a string in upper case changes nothing; no white space appears in the
    conversion of a string without white space. *)
Definition fixes_upper_case (toUpperCase : jsstring -> jsstring) : Prop :=
  forall t, Forall (fun c => isDecimalDigit c \/ 65 <= c <= 90) t ->
            toUpperCase t = t.

Definition idempotent_case (toUpperCase : jsstring -> jsstring) : Prop :=
  forall t, toUpperCase (toUpperCase t) = toUpperCase t.

Definition keeps_no_white_space (toUpperCase : jsstring -> jsstring) : Prop :=
  forall t, no_white_space t -> no_white_space (toUpperCase t).

(** ** IBAN *)

(** [MA] followed by exactly 26 digits. *)
Definition MA_26_digits (s : jsstring) : Prop :=
  exists ds, s = 77 :: 65 :: ds /\ length ds = 26%nat
             /\ Forall isDecimalDigit ds.

(** The three characters at the positions 4 to 6, counted from 0. *)
Definition bank_code_of_iban (s : jsstring) : jsstring :=
  [nth 4 s 0; nth 5 s 0; nth 6 s 0].

(** ISO 7064 MOD 97-10: the first four characters go to the end, a letter
    becomes the two digits of its ordinal minus 55 and a digit stays, and the
    digits are folded. *)
Definition iso7064_char (c : Z) : list Z :=
  if isDigit c then [c - 48] else [(c - 55) / 10; (c - 55) mod 10].

Definition iso7064_digits (s : jsstring) : list Z :=
  flat_map iso7064_char (skipn 4 s ++ firstn 4 s).

Definition iso7064_step (remainder digit : Z) : Z :=
  (remainder * 10 + digit) mod 97.

Definition iso7064_remainder (s : jsstring) : Z :=
  fold_left iso7064_step (iso7064_digits s) 0.

(** The conditions of a valid IBAN on the normalised string. *)
Definition IBAN_conditions (banks : list BankDetails) (s : jsstring) : Prop :=
  MA_26_digits s
  /\ (exists b, In b banks /\ active b = true
                /\ code b = bank_code_of_iban s /\ ibanRegex b s = true)
  /\ iso7064_remainder s = 1.

(** Bank codes are unique within the registry. *)
Definition unique_codes (banks : list BankDetails) : Prop :=
  NoDup (map code banks).

(** The string [s] with the character at position [i] replaced by [d]. *)
Definition set_nth (i : nat) (d : Z) (s : jsstring) : jsstring :=
  firstn i s ++ d :: skipn (S i) s.

(** The position in the rearranged string of the character at position [i]
    of an IBAN of 28 characters. *)
Definition rearranged_position (i : nat) : nat :=
  if (i <? 4)%nat then (i + 24)%nat else (i - 4)%nat.

(** The characters of a string [MA] followed by digits. *)
Definition iban_char (c : Z) : Prop := isDigit c = true \/ c = 77 \/ c = 65.

(** Names for the parts of [isValidIBAN]: the digit string it folds and the
    remainder it gets, the step of its loop, and its map from a character to
    digits. *)
Definition numeric_of_iban (cleanIBAN : jsstring) : jsstring :=
  join (map (fun c =>
               if test_digit c then c
               else numberToString (Num.sub (charCodeAt0 c) (ofZ 55)))
          (split_chars (slice cleanIBAN 4 None
                        ++ slice cleanIBAN 0 (Some 4)))).

Definition remainder_of_iban (cleanIBAN : jsstring) : number :=
  mod97_loop (numeric_of_iban cleanIBAN)
    (length (numeric_of_iban cleanIBAN)) 0 (ofZ 0).

Definition mod97_step (remainder : number) (c : Z) : number :=
  Num.rem (Num.add (Num.mul remainder (ofZ 10)) (parseInt [c] None)) (ofZ 97).

Definition numeric_of_char (c : Z) : jsstring :=
  if test_digit [c] then [c]
  else numberToString (Num.sub (charCodeAt0 [c]) (ofZ 55)).

(** ** RIB *)

(** The integer a number is, when it is one. *)
Definition integer_of (n : number) : option Z :=
  match n with
  | Finite x =>
      if Qeq_bool x (inject_Z (Qfloor x)) then Some (Qfloor x) else None
  | _ => None
  end.

(** A string parsed as a decimal integer. *)
Definition parse_base10 (s : jsstring) : option Z :=
  integer_of (parseInt s (Some 10)).

(** The number of digits of the decimal representation of a natural number:
    the least [k >= 1] with [n < 10^k]. *)
Fixpoint digitCount_from (fuel k : nat) (n : Z) : nat :=
  match fuel with
  | O => k
  | S fuel' =>
      if n <? 10 ^ Z.of_nat k then k else digitCount_from fuel' (S k) n
  end.

Definition digitCount (n : Z) : nat := digitCount_from (Z.to_nat n) 1 n.

(** [k] is the number of decimal digits of [n]. *)
Definition is_digit_count (n : Z) (k : nat) : Prop :=
  (1 <= k)%nat /\ n < 10 ^ Z.of_nat k
  /\ (k = 1%nat \/ 10 ^ (Z.of_nat k - 1) <= n).

(** A string cut left to right into chunks of at most seven characters. *)
Fixpoint chunks_of (fuel : nat) (s : jsstring) : list jsstring :=
  match fuel with
  | O => []
  | S fuel' =>
      match s with
      | [] => []
      | _ => firstn 7 s :: chunks_of fuel' (skipn 7 s)
      end
  end.

Definition rib_chunks (payload : jsstring) : list jsstring :=
  chunks_of (length payload) payload.

Definition rib_step (remainder chunk : Z) : Z :=
  (remainder * 10 ^ Z.of_nat (digitCount chunk) + chunk) mod 97.

(** The fold of the chunks; undefined when a chunk is not a number. *)
Fixpoint rib_fold (chunks : list jsstring) (remainder : Z) : option Z :=
  match chunks with
  | [] => Some remainder
  | c :: t =>
      match parse_base10 c with
      | Some chunk => rib_fold t (rib_step remainder chunk)
      | None => None
      end
  end.

(** All the characters except the last two, and the last two. *)
Definition rib_payload (s : jsstring) : jsstring :=
  firstn (length s - 2) s.

Definition rib_key_chars (s : jsstring) : jsstring :=
  skipn (length s - 2) s.

Definition rib_expected_key (s : jsstring) : option Z :=
  option_map (fun remainder => (97 - remainder) mod 97)
    (rib_fold (rib_chunks (rib_payload s)) 0).

(** The key recomputed from the payload is the key the RIB ends with. *)
Definition rib_key_matches (s : jsstring) : Prop :=
  exists key, rib_expected_key s = Some key
              /\ parse_base10 (rib_key_chars s) = Some key.

(** Names for the parts of [isValidRIB]: [parseInt(chunk, 10)], the step of
    its fold and the number the fold ends with. *)
Definition parse_chunk (chunk : jsstring) : number := parseInt chunk (Some 10).

Definition rib_code_step (remainder chunk : number) : number :=
  Num.rem
    (Num.add
       (Num.mul remainder (Math.pow10 (length (numberToString chunk))))
       chunk)
    (ofZ 97).

Definition rib_code_remainder (cleanRIB : jsstring) : number :=
  let payload := slice cleanRIB 0 (Some (-2)) in
  fold_left rib_code_step (chunks_loop payload (length payload) 0 [])
    (ofZ 0).

Definition number_of_result (r : option Z) : number :=
  match r with
  | Some z => ofZ z
  | None => NaN
  end.

(** ** Amounts *)

(** The whole dirhams and the cents of a finite amount. *)
Definition whole_part (amount : Q) : Z := Qfloor (Qabs amount).

Definition cents_part (amount : Q) : Z :=
  Qfloor ((Qabs amount - inject_Z (whole_part amount)) * inject_Z 100
          + (1 # 2)).

(** The cents the converter renders: the product of the fraction and 100 as
    the double arithmetic computes it, rounded to binary64 when the factors
    are doubles, then [Math.round]. *)
Definition binary64_product (x y : Q) : Q :=
  if is_double x && is_double y then round64q (x * y) else (x * y)%Q.

Definition rendered_cents (amount : Q) : Z :=
  Qfloor (binary64_product (Qabs amount - inject_Z (whole_part amount))
            (inject_Z 100)
          + (1 # 2)).

Definition sign_word (amount : Q) : jsstring :=
  if Qlt_bool amount 0 then lit "moins " else [].

(** The words of a group of 1 to 999. *)
Definition group_words (n : Z) : jsstring := convertLessThanThousand (ofZ n).

(** The words of the whole part: millions, thousands and the rest. *)
Definition whole_words (whole : Z) : jsstring :=
  let millions := whole / 1000000 in
  let thousands := (whole mod 1000000) / 1000 in
  let remainder := whole mod 1000 in
  (if 0 <? millions
   then group_words millions ++ lit " million"
        ++ (if 1 <? millions then lit "s " else lit " ")
   else [])
  ++ (if 0 <? thousands
      then (if thousands =? 1 then lit "mille "
            else group_words thousands ++ lit " mille ")
      else [])
  ++ (if 0 <? remainder then group_words remainder else []).

(** The three segments of the output. *)
Definition dirham_segment (whole : Z) : jsstring :=
  if 0 <? whole
  then whole_words whole ++ lit " dirham" ++ (if whole =? 1 then [] else lit "s")
  else [].

Definition conjunction_segment (whole cents : Z) : jsstring :=
  if (0 <? whole) && (0 <? cents) then lit " et " else [].

Definition cents_segment (cents : Z) : jsstring :=
  if 0 <? cents
  then group_words cents ++ lit " centime"
       ++ (if cents =? 1 then [] else lit "s")
  else [].

(** [p] occurs in [s]. *)
Fixpoint isPrefixOf (p s : jsstring) : bool :=
  match p, s with
  | [], _ => true
  | a :: p', b :: s' => (a =? b) && isPrefixOf p' s'
  | _ :: _, [] => false
  end.

Fixpoint isInfixOf (p s : jsstring) : bool :=
  isPrefixOf p s
  || match s with
     | [] => false
     | _ :: t => isInfixOf p t
     end.

(** The word of the hundreds of a group of 200 to 999. *)
Definition hundreds_word (n : Z) : jsstring :=
  nth (Z.to_nat (n / 100)) units [].

(** What the converter renders a group of 100 to 999 as, and the test that
    it does, with no [cents] in the words. *)
Definition hundreds_rendering (n : Z) : jsstring :=
  (if 200 <=? n then hundreds_word n ++ lit " " else [])
  ++ lit "cent"
  ++ (if n mod 100 =? 0 then [] else lit " " ++ group_words (n mod 100)).

Definition check_group (n : Z) : bool :=
  str_eqb (group_words n) (hundreds_rendering n)
  && negb (isInfixOf (lit "cents") (group_words n)).

(** ** Arguments of any type *)

(** The values that have a method [replace]: the strings, the String
    objects and the objects that carry one. *)
Definition has_replace (v : JSValue) : bool :=
  match v with
  | VString _ | VStringObject _ | VObject (Some _) => true
  | _ => false
  end.

(** The look of a handler at the value it caught completes. *)
Definition inspectable (e : Exception) : Prop :=
  log_BankValidationException e = Normal tt.

(** ** Further notions *)

(** The conditions of a valid RIB on the cleaned string. *)
Definition RIB_conditions (banks : list BankDetails) (s : jsstring) : Prop :=
  exists b, In b banks /\ active b = true /\ code b = firstn 3 s
            /\ Z.of_nat (length s) = ribLength b
            /\ ribRegex b s = true
            /\ rib_key_matches s.

(** The key test of [isValidRIB], as the boolean it computes. *)
Definition rib_key_test (cleanRIB : jsstring) : bool :=
  Num.strict_eq
    (Num.rem (Num.sub (ofZ 97) (rib_code_remainder cleanRIB)) (ofZ 97))
    (parseInt (slice cleanRIB (-2) None) (Some 10)).

(** The number a string of decimal digits writes. *)
Definition decimal_value (ds : jsstring) : Z :=
  fold_left (fun a d => a * 10 + (d - 48)) ds 0.

(** The integers of the chunks, written one after the other. *)
Definition printed_chunks (values : list Z) : jsstring :=
  concat (map digits values).

(** The chunks parse to the natural numbers [values]. *)
Definition chunk_values (chunks : list jsstring) (values : list Z) : Prop :=
  Forall2 (fun c v => parse_base10 c = Some v /\ 0 <= v) chunks values.

(** The bank code in a cleaned argument of the resolvers: the characters 4
    to 6 when it starts with [MA], the first three otherwise. *)
Definition bank_code_of_argument (clean : jsstring) : jsstring :=
  if startsWith clean (lit "MA") then firstn 3 (skipn 4 clean)
  else firstn 3 clean.

(** An active bank of the registry with the code [c]. *)
Definition active_bank (banks : list BankDetails) (c : jsstring)
  (b : BankDetails) : Prop :=
  In b banks /\ active b = true /\ code b = c.

(** The number the two check digits of an IBAN write. *)
Definition check_digits_value (iban : jsstring) : Z :=
  (nth 2 iban 0 - 48) * 10 + (nth 3 iban 0 - 48).

(** The SWIFT code [sw] is the one of the bank, or the one of a branch of
    the bank whose code is the argument [branch]. *)
Definition swift_of_bank (bank : BankDetails) (branch : JSValue)
  (sw : jsstring) : Prop :=
  sw = swift bank
  \/ exists bs b, branches bank = Some bs /\ In b bs
                  /\ branch = VString (BranchDetails.code b)
                  /\ BranchDetails.swift b = sw.

(** The string of a completion, and the tests of the words of the integers
    from 1 to 999 and of the thousands from 1000 to 999000. *)
Definition result_string (c : Completion jsstring) : jsstring :=
  match c with
  | Normal t => t
  | Throw _ => []
  end.

Definition check_undefined (n : Z) : bool :=
  Bool.eqb
    (isInfixOf (lit "undefined")
       (result_string (madToWords (VNumber (ofZ n)))))
    (90 <=? n mod 100).

Definition thousands_words (k : Z) : jsstring :=
  (if k =? 1 then lit "mille" else group_words k ++ lit " mille")
  ++ lit "  dirhams".

Definition check_thousands (k : Z) : bool :=
  str_eqb (result_string (madToWords (VNumber (ofZ (1000 * k)))))
    (thousands_words k).

(** ** A registry and a case conversion to evaluate the validators on *)

Definition sample_bank : BankDetails :=
  {| code := lit "007";
     active := true;
     ibanRegex := fun _ => true;
     ribLength := 24;
     ribRegex := fun s => forallb isDigit s;
     swift := lit "BCMAMAMC";
     branches :=
       Some [ {| BranchDetails.code := lit "0001";
                 BranchDetails.swift := lit "BCMAMAMC001" |} ] |}.

Definition sample_bank_without_branches : BankDetails :=
  {| code := lit "011";
     active := true;
     ibanRegex := fun _ => true;
     ribLength := 24;
     ribRegex := fun s => forallb isDigit s;
     swift := lit "BMCEMAMC";
     branches := None |}.

Definition sample_banks : list BankDetails :=
  [sample_bank; sample_bank_without_branches].

(** A Proxy whose [getPrototypeOf] trap throws an ordinary error, an object
    whose [replace] throws that Proxy, and an object whose [replace] throws
    a Proxy whose trap throws that Proxy. *)
Definition throwing_proxy : Exception := ThrownValue (Some (ThrownValue None)).

Definition object_throwing_a_proxy : JSValue :=
  VObject (Some (fun _ => Throw throwing_proxy)).

Definition object_throwing_a_proxy_twice : JSValue :=
  VObject (Some (fun _ => Throw (ThrownValue (Some throwing_proxy)))).

(** The doubles 0.015, 0.995 and 0.999. *)
Definition double_0_015 : Q := 1080863910568919 # 72057594037927936.

Definition double_0_995 : Q := 8962163258467287 # 9007199254740992.

Definition double_0_999 : Q := 8998192055486251 # 9007199254740992.

(** The case conversion on Basic Latin; the other code units stay. *)
Definition upperBasicLatin (s : jsstring) : jsstring :=
  map (fun c => if (97 <=? c) && (c <=? 122) then c - 32 else c) s.

(** * Properties *)

(** ** Binary64 *)

Lemma two_not_0 : ~ (2 == 0)%Q.
Proof. intros H. discriminate H. Qed.

Lemma pow2_pos (k : Z) : (0 < pow2 k)%Q.
Proof. apply Qpower_0_lt. reflexivity. Qed.

Lemma pow2_add (i j : Z) : (pow2 (i + j) == pow2 i * pow2 j)%Q.
Proof. apply Qpower_plus. exact two_not_0. Qed.

Lemma pow2_le (i j : Z) : i <= j -> (pow2 i <= pow2 j)%Q.
Proof. intros H. apply Qpower_le_compat_l; [ exact H | discriminate ]. Qed.

Lemma pow2_lt_inv (i j : Z) : (pow2 i < pow2 j)%Q -> i < j.
Proof. intros H. apply (Qpower_lt_compat_l_inv 2); [ exact H | reflexivity ]. Qed.

Lemma pow2_Z (k : Z) : 0 <= k -> (pow2 k == inject_Z (2 ^ k))%Q.
Proof. intros H. symmetry. apply (Zpower_Qpower 2 k H). Qed.

Lemma pow2_split (i j k : Z) : i = j + k -> (pow2 i == pow2 j * pow2 k)%Q.
Proof. intros ->. apply pow2_add. Qed.

Lemma Q_num_den (y : Q) : (y * inject_Z (Zpos (Qden y)) == inject_Z (Qnum y))%Q.
Proof.
  destruct y as [ n d ]. unfold Qeq, Qmult, inject_Z. simpl. lia.
Qed.

Lemma binade_spec (y : Q) :
  (0 < y)%Q -> (pow2 (binade y) <= y)%Q /\ (y < pow2 (binade y + 1))%Q.
Proof.
  intros Hy.
  assert (Hn : 0 < Qnum y).
  { destruct y as [ n d ]. unfold Qlt in Hy. simpl in *. lia. }
  pose proof (Z.log2_spec _ Hn) as [ A1 A2 ].
  pose proof (Z.log2_spec (Zpos (Qden y)) (Pos2Z.is_pos _)) as [ B1 B2 ].
  pose proof (Z.log2_nonneg (Qnum y)) as A0.
  pose proof (Z.log2_nonneg (Zpos (Qden y))) as B0.
  unfold binade.
  set (a := Z.log2 (Qnum y)) in *. set (b := Z.log2 (Zpos (Qden y))) in *.
  rewrite Zle_Qle in A1, B1. rewrite Zlt_Qlt in A2, B2.
  rewrite <- pow2_Z in A1, A2, B1, B2 by lia.
  pose proof (Q_num_den y) as Y.
  set (N := inject_Z (Qnum y)) in *. set (D := inject_Z (Zpos (Qden y))) in *.
  pose proof (pow2_pos b) as Pb. pose proof (pow2_pos (Z.succ b)) as Pb1.
  assert (U : (y < pow2 (a - b + 1))%Q).
  { pose proof (pow2_split (Z.succ a) (a - b + 1) b ltac:(lia)) as E.
    pose proof (pow2_pos (a - b + 1)) as P.
    destruct (Qlt_le_dec y (pow2 (a - b + 1))) as [ L | L ]; [ exact L | ].
    exfalso. nra. }
  assert (L : (pow2 (a - b - 1) <= y)%Q).
  { pose proof (pow2_split a (a - b - 1) (Z.succ b) ltac:(lia)) as E.
    pose proof (pow2_pos (a - b - 1)) as P.
    destruct (Qlt_le_dec y (pow2 (a - b - 1))) as [ L | L ]; [ | exact L ].
    exfalso. nra. }
  destruct (Qle_bool (pow2 (a - b)) y) eqn:C.
  - apply Qle_bool_iff in C. split; assumption.
  - replace (a - b - 1 + 1) with (a - b) by lia. split; [ exact L | ].
    destruct (Qlt_le_dec y (pow2 (a - b))) as [ K | K ]; [ exact K | ].
    apply Qle_bool_iff in K. congruence.
Qed.

Lemma binade_unique (y : Q) (b j : Z) :
  (pow2 b <= y)%Q -> (y < pow2 (b + 1))%Q ->
  (pow2 j <= y)%Q -> (y < pow2 (j + 1))%Q -> b = j.
Proof.
  intros B1 B2 J1 J2.
  assert (b < j + 1) by (apply pow2_lt_inv; lra).
  assert (j < b + 1) by (apply pow2_lt_inv; lra).
  lia.
Qed.

Lemma roundTiesToEven_comp (m m' : Q) :
  (m == m')%Q -> roundTiesToEven m = roundTiesToEven m'.
Proof.
  intros E. unfold roundTiesToEven. rewrite (Qfloor_comp _ _ E).
  assert (C : ((m - inject_Z (Qfloor m') ?= 1 # 2)
               = (m' - inject_Z (Qfloor m') ?= 1 # 2))%Q).
  { apply Qcompare_comp; [ rewrite E; reflexivity | reflexivity ]. }
  rewrite C. reflexivity.
Qed.

Lemma roundTiesToEven_cases (m : Q) :
  roundTiesToEven m = Qfloor m \/ roundTiesToEven m = Qfloor m + 1.
Proof.
  unfold roundTiesToEven.
  destruct (m - inject_Z (Qfloor m) ?= 1 # 2)%Q; auto.
  destruct (Z.even (Qfloor m)); auto.
Qed.

Lemma roundTiesToEven_error (m : Q) :
  (Qabs (inject_Z (roundTiesToEven m) - m) <= 1 # 2)%Q.
Proof.
  pose proof (Qfloor_le m) as L. pose proof (Qlt_floor m) as U.
  rewrite inject_Z_plus in U. change (inject_Z 1) with 1%Q in U.
  unfold roundTiesToEven.
  apply Qabs_Qle_condition.
  destruct (Qcompare_spec (m - inject_Z (Qfloor m)) (1 # 2)) as [ E | E | E ].
  - destruct (Z.even (Qfloor m));
      rewrite ?inject_Z_plus; change (inject_Z 1) with 1%Q; split; lra.
  - split; lra.
  - rewrite inject_Z_plus. change (inject_Z 1) with 1%Q. split; lra.
Qed.

Lemma roundTiesToEven_Z (m : Q) (z : Z) :
  (m == inject_Z z)%Q -> roundTiesToEven m = z.
Proof.
  intros E. rewrite (roundTiesToEven_comp _ _ E).
  unfold roundTiesToEven. rewrite Qfloor_Z.
  destruct (Qcompare_spec (inject_Z z - inject_Z z) (1 # 2)) as [ H | H | H ].
  - exfalso. lra.
  - reflexivity.
  - exfalso. lra.
Qed.

Lemma roundTiesToEven_lower (m : Q) (z : Z) :
  (inject_Z z <= m)%Q -> z <= roundTiesToEven m.
Proof.
  intros H. apply Qfloor_resp_le in H. rewrite Qfloor_Z in H.
  destruct (roundTiesToEven_cases m); lia.
Qed.

Lemma roundTiesToEven_upper (m : Q) (z : Z) :
  (m <= inject_Z z)%Q -> roundTiesToEven m <= z.
Proof.
  intros H. pose proof (Qfloor_le m) as L.
  assert (F : Qfloor m <= z).
  { apply Qfloor_resp_le in H. rewrite Qfloor_Z in H. exact H. }
  destruct (Z.eq_dec (Qfloor m) z) as [ E | E ].
  - rewrite (roundTiesToEven_Z m z); [ lia | ]. rewrite E in L.
    apply Qle_antisym; assumption.
  - destruct (roundTiesToEven_cases m); lia.
Qed.

Lemma round64q_comp (x x' : Q) : (x == x')%Q -> round64q x = round64q x'.
Proof.
  intros E. unfold round64q. rewrite (Qred_complete _ _ E). reflexivity.
Qed.

Lemma round64q_zero (x : Q) : (x == 0)%Q -> round64q x = 0%Q.
Proof.
  intros E. rewrite (round64q_comp _ _ E). reflexivity.
Qed.

(** The rounding of a positive number, with its binade. *)
Lemma round64q_pos (y : Q) :
  (0 < y)%Q ->
  exists b,
    (pow2 b <= y)%Q /\ (y < pow2 (b + 1))%Q
    /\ (round64q y
        == inject_Z (roundTiesToEven (y / pow2 (Z.max b (-1022) - 52)))
           * pow2 (Z.max b (-1022) - 52))%Q.
Proof.
  intros Hy. unfold round64q.
  pose proof (Qred_correct y) as R.
  set (x := Qred y) in *.
  assert (Hx : (0 < x)%Q) by (rewrite R; exact Hy).
  assert (Z0 : Qeq_bool x 0 = false).
  { destruct (Qeq_bool x 0) eqn:E; [ | reflexivity ].
    apply Qeq_bool_iff in E. rewrite E in Hx. discriminate Hx. }
  assert (N : Qlt_bool x 0 = false).
  { unfold Qlt_bool. apply negb_false_iff. apply Qle_bool_iff.
    apply Qlt_le_weak. exact Hx. }
  assert (A : (Qabs x == y)%Q).
  { rewrite Qabs_pos by (apply Qlt_le_weak; exact Hx). exact R. }
  rewrite Z0, N.
  assert (Ha : (0 < Qabs x)%Q) by (rewrite A; exact Hy).
  destruct (binade_spec (Qabs x) Ha) as [ B1 B2 ].
  exists (binade (Qabs x)).
  split; [ rewrite <- A; exact B1 | ]. split; [ rewrite <- A; exact B2 | ].
  set (u := pow2 (Z.max (binade (Qabs x)) (-1022) - 52)).
  assert (E : (Qabs x / u == y / u)%Q) by (rewrite A; reflexivity).
  rewrite (roundTiesToEven_comp _ _ E). reflexivity.
Qed.

Lemma round64q_nonneg (y : Q) : (0 <= y)%Q -> (0 <= round64q y)%Q.
Proof.
  intros H. destruct (Qlt_le_dec 0 y) as [ P | P ].
  - destruct (round64q_pos y P) as (b & _ & _ & E). rewrite E.
    set (u := pow2 (Z.max b (-1022) - 52)).
    pose proof (pow2_pos (Z.max b (-1022) - 52)) as U. fold u in U.
    apply Qmult_le_0_compat; [ | lra ].
    change 0%Q with (inject_Z 0). rewrite <- Zle_Qle.
    apply roundTiesToEven_lower. change (inject_Z 0) with 0%Q.
    apply Qle_shift_div_l; [ exact U | lra ].
  - rewrite round64q_zero; [ lra | ]. apply Qle_antisym; assumption.
Qed.

(** The error of the rounding: half a unit in the last place. *)
Lemma round64q_error (y : Q) (j : Z) :
  (0 <= y)%Q -> (y < pow2 j)%Q -> -1021 <= j ->
  (Qabs (round64q y - y) <= pow2 (j - 54))%Q.
Proof.
  intros H0 H J.
  pose proof (pow2_pos (j - 54)) as P54.
  destruct (Qlt_le_dec 0 y) as [ P | P ].
  - destruct (round64q_pos y P) as (b & B1 & _ & E). rewrite E.
    assert (Hb : b < j) by (apply pow2_lt_inv; lra).
    set (e := Z.max b (-1022)). assert (He : e <= j - 1) by lia.
    set (u := pow2 (e - 52)).
    pose proof (pow2_pos (e - 52)) as U. fold u in U.
    pose proof (pow2_le (e - 52) (j - 53) ltac:(lia)) as V. fold u in V.
    pose proof (pow2_split (j - 53) (j - 54) 1 ltac:(lia)) as S.
    change (pow2 1) with 2%Q in S.
    pose proof (roundTiesToEven_error (y / u)) as R.
    set (n := inject_Z (roundTiesToEven (y / u))) in *.
    apply Qabs_Qle_condition in R. apply Qabs_Qle_condition.
    assert (Y : (y == (y / u) * u)%Q) by (field; lra).
    set (m := (y / u)%Q) in *.
    split; nra.
  - assert (Z : (y == 0)%Q) by (apply Qle_antisym; assumption).
    rewrite (round64q_zero y Z). apply Qabs_Qle_condition. split; lra.
Qed.

(** A double of a binade is a multiple of the unit of the binade. *)
Lemma round64q_binade (y : Q) (j : Z) :
  (pow2 j <= y)%Q -> (y < pow2 (j + 1))%Q -> -1022 <= j ->
  (round64q y == inject_Z (roundTiesToEven (y / pow2 (j - 52)))
                 * pow2 (j - 52))%Q.
Proof.
  intros J1 J2 J.
  assert (P : (0 < y)%Q) by (pose proof (pow2_pos j); lra).
  destruct (round64q_pos y P) as (b & B1 & B2 & E).
  rewrite (binade_unique y b j B1 B2 J1 J2) in E.
  rewrite Z.max_l in E by lia. exact E.
Qed.

(** The natural numbers below 2^53 are doubles. *)
Lemma round64q_Z (n : Z) :
  0 <= n < 2 ^ 53 -> (round64q (inject_Z n) == inject_Z n)%Q.
Proof.
  intros H. destruct (Z.eq_dec n 0) as [ -> | N ]; [ reflexivity | ].
  assert (P : (0 < inject_Z n)%Q).
  { change 0%Q with (inject_Z 0). rewrite <- Zlt_Qlt. lia. }
  destruct (round64q_pos _ P) as (b & B1 & B2 & E). rewrite E.
  assert (Hb : b < 53).
  { apply pow2_lt_inv. rewrite (pow2_Z 53) by lia.
    assert ((inject_Z n < inject_Z (2 ^ 53))%Q) by (rewrite <- Zlt_Qlt; lia).
    lra. }
  assert (Hb0 : 0 < b + 1).
  { apply pow2_lt_inv. change (pow2 0) with 1%Q.
    assert ((inject_Z 1 <= inject_Z n)%Q) by (rewrite <- Zle_Qle; lia).
    change (inject_Z 1) with 1%Q in *. lra. }
  rewrite Z.max_l by lia.
  pose proof (pow2_split 0 (b - 52) (52 - b) ltac:(lia)) as S.
  change (pow2 0) with 1%Q in S.
  pose proof (pow2_pos (b - 52)) as U.
  pose proof (pow2_Z (52 - b) ltac:(lia)) as I.
  set (p := pow2 (b - 52)) in *. set (q := pow2 (52 - b)) in *.
  assert (Iq : (/ p == q)%Q).
  { apply (Qmult_inj_l _ _ p); [ lra | ]. rewrite Qmult_inv_r by lra.
    exact S. }
  assert (M : (inject_Z n / p == inject_Z (n * 2 ^ (52 - b)))%Q).
  { rewrite inject_Z_mult, <- I. unfold Qdiv. rewrite Iq. reflexivity. }
  rewrite (roundTiesToEven_Z _ _ M).
  rewrite inject_Z_mult, <- I, <- Qmult_assoc, (Qmult_comm q), <- S. ring.
Qed.

Lemma bool_eq_iff (a b : bool) : (a = true <-> b = true) -> a = b.
Proof. destruct a, b; intros [ H1 H2 ]; auto; symmetry; auto. Qed.

Lemma is_double_comp (x x' : Q) : (x == x')%Q -> is_double x = is_double x'.
Proof.
  intros E. unfold is_double, Qlt_bool. rewrite (round64q_comp x x' E).
  f_equal; [ | f_equal ]; apply bool_eq_iff.
  - rewrite !Qeq_bool_iff, E. reflexivity.
  - rewrite !Qle_bool_iff, E. reflexivity.
Qed.

Lemma pow2_7 : (pow2 7 == 128)%Q.
Proof. vm_compute. reflexivity. Qed.

Lemma pow2_minus_1 : (pow2 (-1) == 1 # 2)%Q.
Proof. vm_compute. reflexivity. Qed.

Lemma pow2_minus_7 : (pow2 (-7) == 1 # 128)%Q.
Proof. vm_compute. reflexivity. Qed.

Lemma pow2_minus_8 : (pow2 (-8) == 1 # 256)%Q.
Proof. vm_compute. reflexivity. Qed.

Lemma pow2_minus_47 : (pow2 (-47) == 1 # 140737488355328)%Q.
Proof. vm_compute. reflexivity. Qed.

Lemma pow2_minus_55 : (pow2 (-55) == 1 # 36028797018963968)%Q.
Proof. vm_compute. reflexivity. Qed.

Lemma pow2_minus_60 : (pow2 (-60) == 1 # 1152921504606846976)%Q.
Proof. vm_compute. reflexivity. Qed.

(** The product of a fraction and 100: the error of the rounding. *)
Lemma binary64_product_error (x : Q) :
  (0 <= x)%Q -> (x < 1)%Q ->
  (Qabs (binary64_product x (inject_Z 100) - x * inject_Z 100)
   <= 1 # 140737488355328)%Q.
Proof.
  intros H0 H1. unfold binary64_product.
  change (inject_Z 100) with 100%Q.
  destruct (is_double x && is_double 100).
  - rewrite <- pow2_minus_47. apply (round64q_error (x * 100) 7).
    + lra.
    + rewrite pow2_7. lra.
    + lia.
  - apply Qabs_Qle_condition. split; lra.
Qed.

Lemma binary64_product_nonneg (x : Q) :
  (0 <= x)%Q -> (0 <= binary64_product x (inject_Z 100))%Q.
Proof.
  intros H. unfold binary64_product. change (inject_Z 100) with 100%Q.
  destruct (is_double x && is_double 100).
  - apply round64q_nonneg. lra.
  - lra.
Qed.

Lemma binary64_product_comp (x x' y : Q) :
  (x == x')%Q -> (binary64_product x y == binary64_product x' y)%Q.
Proof.
  intros E. unfold binary64_product. rewrite (is_double_comp x x' E).
  destruct (is_double x' && is_double y).
  - rewrite (round64q_comp (x * y) (x' * y)); [ reflexivity | ].
    rewrite E. reflexivity.
  - rewrite E. reflexivity.
Qed.

Lemma binary64_product_zero (x : Q) :
  (x == 0)%Q -> (binary64_product x (inject_Z 100) == 0)%Q.
Proof.
  intros E. unfold binary64_product.
  destruct (is_double x && is_double (inject_Z 100)).
  - rewrite round64q_zero; [ reflexivity | ]. rewrite E. reflexivity.
  - rewrite E. reflexivity.
Qed.

(** A double below 1/200 times 100 is rounded to a double below 1/2: the
    nearest doubles around 1/200 are 5764607523034234 and 5764607523034235
    times 2^-60. *)
Lemma binary64_product_below_half (x : Q) :
  (0 <= x)%Q -> (x < 1 # 200)%Q ->
  (binary64_product x (inject_Z 100) < 1 # 2)%Q.
Proof.
  intros H0 H. unfold binary64_product. change (inject_Z 100) with 100%Q.
  destruct (is_double x && is_double 100) eqn:D; [ | lra ].
  apply andb_true_iff in D. destruct D as [ D _ ].
  unfold is_double in D. apply andb_true_iff in D. destruct D as [ D _ ].
  apply Qeq_bool_iff in D.
  pose proof (round64q_error (x * 100) (-1)) as R.
  rewrite pow2_minus_1 in R. change (-1 - 54) with (-55) in R.
  rewrite pow2_minus_55 in R.
  specialize (R ltac:(lra) ltac:(lra) ltac:(lia)).
  apply Qabs_Qle_condition in R.
  destruct (Qlt_le_dec x (1 # 256)) as [ S | S ]; [ lra | ].
  pose proof (round64q_binade x (-8)) as B.
  rewrite pow2_minus_8 in B. change (-8 + 1) with (-7) in B.
  rewrite pow2_minus_7 in B. change (-8 - 52) with (-60) in B.
  specialize (B S ltac:(lra) ltac:(lia)). rewrite D in B.
  remember (roundTiesToEven (x / pow2 (-60))) as n eqn:En. clear En.
  rewrite pow2_minus_60 in B.
  assert (N : n < 5764607523034235).
  { rewrite Zlt_Qlt. change (inject_Z 5764607523034235)
      with (5764607523034235 # 1)%Q. lra. }
  assert (N' : (inject_Z n <= inject_Z 5764607523034234)%Q)
    by (rewrite <- Zle_Qle; lia).
  change (inject_Z 5764607523034234) with (5764607523034234 # 1)%Q in N'.
  lra.
Qed.

(** ** Arithmetic of the integer numbers *)

Lemma Qred_inject_Z (x : Q) (z : Z) : (x == inject_Z z)%Q -> Qred x = inject_Z z.
Proof.
  intros H. rewrite (Qred_complete _ _ H).
  apply Qred_identity. simpl. apply Z.gcd_1_r.
Qed.

Lemma add_ofZ (a b : Z) : Num.add (ofZ a) (ofZ b) = ofZ (a + b).
Proof.
  unfold ofZ, Num.add. f_equal. rewrite <- inject_Z_plus.
  apply Qred_inject_Z. reflexivity.
Qed.

Lemma round64_Z (n : Z) : 0 <= n < 2 ^ 53 -> round64 (inject_Z n) = ofZ n.
Proof.
  intros H. pose proof (round64q_Z n H) as E. unfold round64.
  assert (O : Qle_bool (pow2 1024) (Qabs (round64q (inject_Z n))) = false).
  { destruct (Qle_bool _ _) eqn:C; [ | reflexivity ].
    apply Qle_bool_iff in C. rewrite E in C.
    assert (P : (0 <= inject_Z n)%Q).
    { change 0%Q with (inject_Z 0). rewrite <- Zle_Qle. lia. }
    rewrite (Qabs_pos _ P) in C.
    assert (U : (inject_Z n < inject_Z (2 ^ 53))%Q)
      by (rewrite <- Zlt_Qlt; lia).
    rewrite <- (pow2_Z 53) in U by lia.
    pose proof (pow2_le 53 1024 ltac:(lia)). exfalso. lra. }
  rewrite O. unfold ofZ. f_equal. apply Qred_inject_Z. exact E.
Qed.

(** The product of two natural numbers is exact as long as it is below
    2^53. *)
Lemma mul_ofZ (a b : Z) :
  0 <= a -> 0 <= b -> a * b < 2 ^ 53 ->
  Num.mul (ofZ a) (ofZ b) = ofZ (a * b).
Proof.
  intros Ha Hb H. unfold ofZ, Num.mul. rewrite <- inject_Z_mult.
  destruct (is_double (inject_Z a) && is_double (inject_Z b)).
  - apply round64_Z. nia.
  - f_equal. apply Qred_inject_Z. reflexivity.
Qed.

Lemma neg_ofZ (a : Z) : Num.neg (ofZ a) = ofZ (- a).
Proof.
  unfold ofZ, Num.neg. f_equal. rewrite <- inject_Z_opp.
  apply Qred_inject_Z. reflexivity.
Qed.

Lemma sub_ofZ (a b : Z) : Num.sub (ofZ a) (ofZ b) = ofZ (a - b).
Proof.
  unfold Num.sub. rewrite neg_ofZ, add_ofZ. reflexivity.
Qed.

Lemma Qeq_bool_inject_Z (a b : Z) :
  Qeq_bool (inject_Z a) (inject_Z b) = (a =? b).
Proof.
  unfold Qeq_bool, inject_Z. simpl. rewrite !Z.mul_1_r. reflexivity.
Qed.

Lemma Qle_bool_inject_Z (a b : Z) :
  Qle_bool (inject_Z a) (inject_Z b) = (a <=? b).
Proof.
  unfold Qle_bool, inject_Z. simpl. rewrite !Z.mul_1_r. reflexivity.
Qed.

Lemma strict_eq_ofZ (a b : Z) : Num.strict_eq (ofZ a) (ofZ b) = (a =? b).
Proof. apply Qeq_bool_inject_Z. Qed.

Lemma lt_ofZ (a b : Z) : Num.lt (ofZ a) (ofZ b) = (a <? b).
Proof.
  unfold Num.lt, ofZ, Qlt_bool. rewrite Qle_bool_inject_Z.
  rewrite Z.ltb_antisym. reflexivity.
Qed.

Lemma gt_ofZ (a b : Z) : Num.gt (ofZ a) (ofZ b) = (b <? a).
Proof. apply lt_ofZ. Qed.

Lemma le_ofZ (a b : Z) : Num.le (ofZ a) (ofZ b) = (a <=? b).
Proof.
  unfold Num.le, ofZ. fold (ofZ a). fold (ofZ b). rewrite lt_ofZ.
  rewrite Z.leb_antisym. reflexivity.
Qed.

Lemma ge_ofZ (a b : Z) : Num.ge (ofZ a) (ofZ b) = (b <=? a).
Proof. apply le_ofZ. Qed.

Lemma Qtrunc_div_inject_Z (a : Z) (p : positive) :
  Num.Qtrunc (inject_Z a / inject_Z (Zpos p)) = Z.quot a (Zpos p).
Proof.
  unfold Num.Qtrunc, Qdiv, Qinv, Qmult, inject_Z. simpl.
  rewrite Z.mul_1_r. reflexivity.
Qed.

Lemma Qeq_bool_pos_0 (p : positive) : Qeq_bool (inject_Z (Zpos p)) 0 = false.
Proof. reflexivity. Qed.

Lemma rem_ofZ (a : Z) (p : positive) :
  Num.rem (ofZ a) (ofZ (Zpos p)) = ofZ (Z.rem a (Zpos p)).
Proof.
  unfold ofZ, Num.rem. rewrite Qeq_bool_pos_0. f_equal. rewrite Qtrunc_div_inject_Z.
  rewrite <- inject_Z_mult. unfold Qminus. rewrite <- inject_Z_opp.
  rewrite <- inject_Z_plus.
  assert (E : a + - (Zpos p * (a ÷ Zpos p)) = Z.rem a (Zpos p)).
  { pose proof (Z.quot_rem' a (Zpos p)). lia. }
  rewrite E. apply Qred_inject_Z. reflexivity.
Qed.

Lemma rem_ofZ_nonneg (a : Z) (p : positive) :
  0 <= a -> Num.rem (ofZ a) (ofZ (Zpos p)) = ofZ (a mod Zpos p).
Proof.
  intros H. rewrite rem_ofZ. rewrite Z.rem_mod_nonneg by lia. reflexivity.
Qed.

Lemma div_ofZ_floor (a : Z) (p : positive) :
  Math.floor (Num.div (ofZ a) (ofZ (Zpos p))) = ofZ (a / Zpos p).
Proof.
  unfold ofZ, Num.div. rewrite Qeq_bool_pos_0.
  unfold Math.floor, ofZ. f_equal. f_equal.
  rewrite (Qfloor_comp _ _ (Qred_correct _)).
  unfold Qdiv, Qinv, Qmult, inject_Z, Qfloor; simpl.
  rewrite Z.mul_1_r. reflexivity.
Qed.

(** ** Strings *)

Lemma str_eqb_eq (a b : jsstring) : str_eqb a b = true <-> a = b.
Proof.
  unfold str_eqb. destruct (list_eq_dec Z.eq_dec a b); split; congruence.
Qed.

Lemma isDigit_spec (c : Z) : isDigit c = true <-> isDecimalDigit c.
Proof. unfold isDigit, isDecimalDigit. lia. Qed.

Lemma forallb_isDigit (l : jsstring) :
  forallb isDigit l = true <-> Forall isDecimalDigit l.
Proof.
  rewrite forallb_forall, Forall_forall.
  split; intros H x Hx; apply isDigit_spec; auto.
Qed.

Lemma slice_from (s : jsstring) (k : nat) :
  (k <= length s)%nat -> slice s (Z.of_nat k) None = skipn k s.
Proof.
  intros H. unfold slice, slice_index.
  destruct (Z.ltb_spec (Z.of_nat k) 0); [ lia | ].
  rewrite Z.min_l by lia. rewrite Nat2Z.id.
  apply firstn_all2. rewrite length_skipn. lia.
Qed.

Lemma slice_prefix (s : jsstring) (k : nat) :
  (k <= length s)%nat -> slice s 0 (Some (Z.of_nat k)) = firstn k s.
Proof.
  intros H. unfold slice, slice_index. simpl (0 <? 0). cbv iota.
  destruct (Z.ltb_spec (Z.of_nat k) 0); [ lia | ].
  rewrite !Z.min_l by lia. simpl. f_equal. lia.
Qed.

Lemma join_split_chars (f : jsstring -> jsstring) (s : jsstring) :
  join (map f (split_chars s)) = flat_map (fun c => f [c]) s.
Proof.
  unfold join, split_chars. rewrite map_map, flat_map_concat_map. reflexivity.
Qed.

(** ** The registry *)

Lemma NoDup_map_inj {A B} (f : A -> B) (l : list A) (x y : A) :
  NoDup (map f l) -> In x l -> In y l -> f x = f y -> x = y.
Proof.
  induction l as [ | a l IH ]; simpl; intros N Hx Hy E; [ contradiction | ].
  inversion N as [ | ? ? Hnot N' ]; subst.
  destruct Hx as [ -> | Hx ], Hy as [ -> | Hy ]; auto.
  - exfalso. apply Hnot. rewrite E. apply in_map. exact Hy.
  - exfalso. apply Hnot. rewrite <- E. apply in_map. exact Hx.
Qed.

Lemma find_bank_some (banks : list BankDetails) (bc : jsstring) (b : BankDetails) :
  find_bank banks bc = Some b ->
  In b banks /\ code b = bc /\ active b = true.
Proof.
  unfold find_bank. intros H. apply find_some in H. destruct H as [Hin H].
  apply andb_true_iff in H. destruct H as [H1 H2].
  apply str_eqb_eq in H1. auto.
Qed.

Lemma find_bank_unique (banks : list BankDetails) (bc : jsstring) (b : BankDetails) :
  unique_codes banks -> In b banks -> code b = bc -> active b = true ->
  find_bank banks bc = Some b.
Proof.
  intros U Hin Hc Ha.
  destruct (find_bank banks bc) as [ b' | ] eqn:F.
  - apply find_bank_some in F. destruct F as (Hin' & Hc' & _).
    f_equal. apply (NoDup_map_inj code banks); auto. congruence.
  - unfold find_bank in F.
    pose proof (find_none _ _ F b Hin) as N. simpl in N.
    rewrite Ha in N. rewrite (proj2 (str_eqb_eq _ _) Hc) in N. discriminate.
Qed.

(** ** The MOD 97-10 loop of [isValidIBAN] *)

Lemma skipn_nth_error {A} (l : list A) (i : nat) (x : A) :
  nth_error l i = Some x -> skipn i l = x :: skipn (S i) l.
Proof.
  revert i. induction l as [ | a l IH ]; intros [ | i ] H; simpl in *;
    try discriminate.
  - congruence.
  - apply IH. exact H.
Qed.

Lemma mod97_loop_fold (numeric : jsstring) (fuel i : nat) (r : number) :
  (i + fuel = length numeric)%nat ->
  mod97_loop numeric fuel i r = fold_left mod97_step (skipn i numeric) r.
Proof.
  revert i r. induction fuel as [ | fuel IH ]; intros i r H; simpl.
  - rewrite skipn_all2 by lia. reflexivity.
  - destruct (Nat.ltb_spec i (length numeric)) as [ L | L ]; [ | lia ].
    destruct (nth_error numeric i) as [ c | ] eqn:E.
    + rewrite (skipn_nth_error _ _ _ E). simpl.
      rewrite IH by lia. unfold char_at. rewrite E. reflexivity.
    + apply nth_error_None in E. lia.
Qed.

Lemma digit_cases (c : Z) :
  isDigit c = true ->
  c = 48 \/ c = 49 \/ c = 50 \/ c = 51 \/ c = 52 \/ c = 53 \/ c = 54
  \/ c = 55 \/ c = 56 \/ c = 57.
Proof. unfold isDigit. lia. Qed.

Ltac each_digit H :=
  apply digit_cases in H;
  repeat (destruct H as [ H | H ]; [ subst | ]); subst.

Lemma parseInt_digit (c : Z) :
  isDigit c = true -> parseInt [c] None = ofZ (c - 48).
Proof. intros H. each_digit H; reflexivity. Qed.

Lemma numeric_of_char_digit (c : Z) :
  isDigit c = true -> numeric_of_char c = [c].
Proof.
  intros H. unfold numeric_of_char, test_digit. simpl. rewrite H. reflexivity.
Qed.

Lemma mod97_step_digit (r c : Z) :
  0 <= r < 97 -> isDigit c = true ->
  mod97_step (ofZ r) c = ofZ (iso7064_step r (c - 48)).
Proof.
  intros Hr Hc. unfold mod97_step, iso7064_step.
  rewrite (parseInt_digit _ Hc), mul_ofZ, add_ofZ
    by (change (2 ^ 53) with 9007199254740992; lia).
  apply rem_ofZ_nonneg. unfold isDigit in Hc. lia.
Qed.

Lemma iso7064_step_range (r d : Z) : 0 <= iso7064_step r d < 97.
Proof. unfold iso7064_step. apply Z.mod_pos_bound. lia. Qed.

Lemma mod97_fold_char (c r : Z) :
  iban_char c -> 0 <= r < 97 ->
  fold_left mod97_step (numeric_of_char c) (ofZ r)
  = ofZ (fold_left iso7064_step (iso7064_char c) r).
Proof.
  intros [ H | [ -> | -> ] ] Hr.
  - rewrite (numeric_of_char_digit _ H). unfold iso7064_char. rewrite H.
    simpl. apply mod97_step_digit; assumption.
  - change (numeric_of_char 77) with [50; 50].
    change (iso7064_char 77) with [2; 2]. simpl.
    rewrite (mod97_step_digit r 50 Hr eq_refl).
    rewrite (mod97_step_digit _ 50 (iso7064_step_range _ _) eq_refl).
    reflexivity.
  - change (numeric_of_char 65) with [49; 48].
    change (iso7064_char 65) with [1; 0]. simpl.
    rewrite (mod97_step_digit r 49 Hr eq_refl).
    rewrite (mod97_step_digit _ 48 (iso7064_step_range _ _) eq_refl).
    reflexivity.
Qed.

Lemma fold_iso7064_step_nonneg (ds : list Z) (r : Z) :
  0 <= r < 97 -> 0 <= fold_left iso7064_step ds r < 97.
Proof.
  revert r. induction ds as [ | d ds IH ]; intros r H; simpl; [ exact H | ].
  apply IH. apply iso7064_step_range.
Qed.

Lemma mod97_fold (l : jsstring) (r : Z) :
  Forall iban_char l -> 0 <= r < 97 ->
  fold_left mod97_step (flat_map numeric_of_char l) (ofZ r)
  = ofZ (fold_left iso7064_step (flat_map iso7064_char l) r).
Proof.
  intros F. revert r. induction F as [ | c l Hc F IH ]; intros r Hr; simpl.
  - reflexivity.
  - rewrite !fold_left_app. rewrite (mod97_fold_char c r Hc Hr).
    apply IH. apply fold_iso7064_step_nonneg. exact Hr.
Qed.

(** ** [isValidIBAN] *)

Ltac list_of_length l H :=
  repeat (destruct l as [ | ? l ]; [ discriminate H | ]);
  destruct l; [ clear H | discriminate H ].

Lemma test_MA26_spec (s : jsstring) : test_MA26 s = true <-> MA_26_digits s.
Proof.
  unfold MA_26_digits. split.
  - destruct s as [ | m [ | a ds ] ]; simpl; try discriminate.
    + destruct m as [ | [ p | p | ] | ]; try discriminate;
        repeat (destruct p as [ p | p | ]; try discriminate).
    + intros H.
      assert (Hm : m = 77).
      { destruct (Z.eq_dec m 77) as [ E | N ]; [ exact E | ].
        destruct m as [ | p | p ]; try discriminate.
        repeat (destruct p as [ p | p | ]; try discriminate);
          congruence. }
      subst m.
      assert (Ha : a = 65).
      { destruct (Z.eq_dec a 65) as [ E | N ]; [ exact E | ].
        destruct a as [ | p | p ]; try discriminate.
        repeat (destruct p as [ p | p | ]; try discriminate);
          congruence. }
      subst a. apply andb_true_iff in H. destruct H as [ L D ].
      exists ds. split; [ reflexivity | ]. split.
      * apply Nat.eqb_eq. exact L.
      * apply forallb_isDigit. exact D.
  - intros (ds & -> & L & D). simpl. apply andb_true_iff. split.
    + apply Nat.eqb_eq. exact L.
    + apply forallb_isDigit. exact D.
Qed.

Lemma isValidIBAN_string (banks : list BankDetails)
  (toUpperCase : jsstring -> jsstring) (s : jsstring) :
  isValidIBAN banks toUpperCase (VString s)
  = Normal
      (let c := normalizeIBAN toUpperCase s in
       test_MA26 c
       && match find_bank banks (substring c 4 7) with
          | None => false
          | Some bank =>
              ibanRegex bank c
              && Num.strict_eq (remainder_of_iban c) (ofZ 1)
          end).
Proof.
  unfold isValidIBAN, isValidIBAN_try, normalizeIBAN. simpl.
  destruct (test_MA26 _); simpl; [ | reflexivity ].
  destruct (find_bank _ _) as [ bank | ]; simpl; [ | reflexivity ].
  destruct (ibanRegex bank _); simpl; [ | reflexivity ].
  unfold remainder_of_iban, numeric_of_iban.
  destruct (Num.strict_eq _ _); reflexivity.
Qed.

Lemma MA_26_digits_shape (c : jsstring) :
  MA_26_digits c ->
  substring c 4 7 = bank_code_of_iban c
  /\ slice c 4 None ++ slice c 0 (Some 4) = skipn 4 c ++ firstn 4 c
  /\ Forall iban_char (skipn 4 c ++ firstn 4 c).
Proof.
  intros (ds & -> & L & D).
  assert (L28 : length (77 :: 65 :: ds) = 28%nat) by (simpl; lia).
  split; [ | split ].
  - list_of_length ds L. reflexivity.
  - rewrite (slice_from _ 4) by lia. rewrite (slice_prefix _ 4) by lia.
    reflexivity.
  - apply Forall_app. split.
    + apply Forall_forall. intros x Hx. left.
      apply isDigit_spec.
      assert (Hin : In x ds).
      { change (skipn 4 (77 :: 65 :: ds)) with (skipn 2 ds) in Hx.
        rewrite <- (firstn_skipn 2 ds). apply in_or_app. right. exact Hx. }
      rewrite Forall_forall in D. apply D. exact Hin.
    + apply Forall_forall. intros x Hx.
      change (firstn 4 (77 :: 65 :: ds)) with (77 :: 65 :: firstn 2 ds) in Hx.
      destruct Hx as [ <- | [ <- | Hx ] ].
      * right. left. reflexivity.
      * right. right. reflexivity.
      * left. apply isDigit_spec. rewrite Forall_forall in D. apply D.
        rewrite <- (firstn_skipn 2 ds). apply in_or_app. left. exact Hx.
Qed.

Lemma remainder_of_iban_spec (c : jsstring) :
  MA_26_digits c -> remainder_of_iban c = ofZ (iso7064_remainder c).
Proof.
  intros H. destruct (MA_26_digits_shape c H) as (_ & R & F).
  unfold remainder_of_iban, numeric_of_iban. rewrite R.
  rewrite join_split_chars.
  rewrite mod97_loop_fold by reflexivity. simpl (skipn 0 _).
  apply (mod97_fold _ 0 F). lia.
Qed.

Lemma isValidIBAN_true_iff (banks : list BankDetails)
  (toUpperCase : jsstring -> jsstring) (s : jsstring) :
  let c := normalizeIBAN toUpperCase s in
  isValidIBAN banks toUpperCase (VString s) = Normal true
  <-> MA_26_digits c
      /\ (exists b, find_bank banks (bank_code_of_iban c) = Some b
                    /\ ibanRegex b c = true)
      /\ iso7064_remainder c = 1.
Proof.
  intros c. rewrite isValidIBAN_string. fold c. cbv zeta. split.
  - intros H. injection H as H. apply andb_true_iff in H.
    destruct H as [ T H ]. apply test_MA26_spec in T.
    destruct (MA_26_digits_shape c T) as (E & _ & _). rewrite E in H.
    destruct (find_bank banks (bank_code_of_iban c)) as [ b | ];
      [ | discriminate ].
    apply andb_true_iff in H. destruct H as [ P R ].
    rewrite (remainder_of_iban_spec c T), strict_eq_ofZ in R.
    apply Z.eqb_eq in R. eauto.
  - intros (T & (b & F & P) & R).
    destruct (MA_26_digits_shape c T) as (E & _ & _).
    rewrite (proj2 (test_MA26_spec c) T), E, F, P.
    rewrite (remainder_of_iban_spec c T), strict_eq_ofZ, R. reflexivity.
Qed.

Lemma isValidIBAN_string_boolean (banks : list BankDetails)
  (toUpperCase : jsstring -> jsstring) (s : jsstring) :
  isValidIBAN banks toUpperCase (VString s) = Normal true
  \/ isValidIBAN banks toUpperCase (VString s) = Normal false.
Proof.
  rewrite isValidIBAN_string. cbv zeta.
  match goal with |- Normal ?b = _ \/ _ => destruct b end; auto.
Qed.

(** C1.  On a string, [isValidIBAN] returns [true] exactly when the input,
    white space stripped and put in upper case, is [MA] followed by 26
    digits, its characters 4 to 6 are the code of an active bank of the
    registry whose [ibanRegex] matches it, and its ISO 7064 MOD 97-10
    remainder is 1; it returns [false] in every other case.  Bank codes are
    unique within the registry. *)
Theorem isValidIBAN_iff_conditions (banks : list BankDetails)
  (toUpperCase : jsstring -> jsstring) (s : jsstring) :
  unique_codes banks ->
  (isValidIBAN banks toUpperCase (VString s) = Normal true
   <-> IBAN_conditions banks (normalizeIBAN toUpperCase s))
  /\ (isValidIBAN banks toUpperCase (VString s) = Normal false
      <-> ~ IBAN_conditions banks (normalizeIBAN toUpperCase s)).
Proof.
  intros U.
  assert (T : isValidIBAN banks toUpperCase (VString s) = Normal true
              <-> IBAN_conditions banks (normalizeIBAN toUpperCase s)).
  { rewrite isValidIBAN_true_iff. unfold IBAN_conditions.
    split; intros (M & (b & H) & R); (split; [ exact M | split; [ | exact R ] ]).
    - destruct H as [ F P ]. apply find_bank_some in F.
      destruct F as (I & C & A). exists b. auto.
    - destruct H as (I & A & C & P). exists b. split; [ | exact P ].
      apply find_bank_unique; auto. }
  split; [ exact T | ].
  destruct (isValidIBAN_string_boolean banks toUpperCase s) as [ E | E ];
    rewrite E in *; split.
  - discriminate.
  - intros N. exfalso. apply N. apply T. reflexivity.
  - intros _ C. apply T in C. discriminate.
  - reflexivity.
Qed.

Lemma isValidIBAN_iff_conditions_witness :
  unique_codes sample_banks
  /\ IBAN_conditions sample_banks
       (normalizeIBAN upperBasicLatin
          (lit "ma98 0070 0000 0000 0000 0000 0001")).
Proof.
  assert (U : unique_codes sample_banks).
  { unfold unique_codes, sample_banks. simpl.
    repeat constructor; simpl; intuition discriminate. }
  split; [ exact U | ].
  apply (proj1 (isValidIBAN_iff_conditions sample_banks upperBasicLatin
                  (lit "ma98 0070 0000 0000 0000 0000 0001") U)).
  vm_compute. reflexivity.
Defined.

(** ** Sensitivity of the MOD 97-10 remainder to one digit *)

Lemma iso7064_step_inj (r1 r2 d : Z) :
  0 <= r1 < 97 -> 0 <= r2 < 97 ->
  iso7064_step r1 d = iso7064_step r2 d -> r1 = r2.
Proof.
  unfold iso7064_step. intros H1 H2 E.
  pose proof (Z.div_mod (r1 * 10 + d) 97 ltac:(lia)) as D1.
  pose proof (Z.div_mod (r2 * 10 + d) 97 ltac:(lia)) as D2.
  rewrite E in D1. lia.
Qed.

Lemma iso7064_step_digit_inj (r x y : Z) :
  0 <= x < 10 -> 0 <= y < 10 ->
  iso7064_step r x = iso7064_step r y -> x = y.
Proof.
  unfold iso7064_step. intros H1 H2 E.
  pose proof (Z.div_mod (r * 10 + x) 97 ltac:(lia)) as D1.
  pose proof (Z.div_mod (r * 10 + y) 97 ltac:(lia)) as D2.
  rewrite E in D1. lia.
Qed.

Lemma fold_iso7064_step_range (ds : list Z) (r : Z) :
  0 <= r < 97 -> 0 <= fold_left iso7064_step ds r < 97.
Proof.
  revert r. induction ds as [ | d ds IH ]; intros r H; simpl; [ exact H | ].
  apply IH. apply iso7064_step_range.
Qed.

Lemma fold_iso7064_step_inj (ds : list Z) (r1 r2 : Z) :
  0 <= r1 < 97 -> 0 <= r2 < 97 ->
  fold_left iso7064_step ds r1 = fold_left iso7064_step ds r2 -> r1 = r2.
Proof.
  revert r1 r2. induction ds as [ | d ds IH ]; intros r1 r2 H1 H2; simpl.
  - auto.
  - intros E. apply IH in E; try apply iso7064_step_range.
    apply (iso7064_step_inj r1 r2 d); assumption.
Qed.

Lemma iso7064_fold_mutation (pre post : jsstring) (x y : Z) :
  isDigit x = true -> isDigit y = true -> x <> y ->
  fold_left iso7064_step (flat_map iso7064_char (pre ++ x :: post)) 0
  <> fold_left iso7064_step (flat_map iso7064_char (pre ++ y :: post)) 0.
Proof.
  intros Hx Hy N E. apply N.
  rewrite !flat_map_app in E. simpl in E. rewrite !fold_left_app in E.
  apply fold_iso7064_step_inj in E.
  - unfold iso7064_char in E. rewrite Hx, Hy in E. simpl in E.
    apply iso7064_step_digit_inj in E; unfold isDigit in *; lia.
  - apply fold_iso7064_step_range. apply fold_iso7064_step_range. lia.
  - apply fold_iso7064_step_range. apply fold_iso7064_step_range. lia.
Qed.

(** Mutating the character [i >= 2] of an IBAN mutates the character
    [rearranged_position i] of the rearranged string. *)
Lemma rearranged_set_nth (c : jsstring) (i : nat) (d : Z) :
  length c = 28%nat -> (2 <= i < 28)%nat ->
  let j := rearranged_position i in
  let r := skipn 4 c ++ firstn 4 c in
  skipn 4 (set_nth i d c) ++ firstn 4 (set_nth i d c)
  = firstn j r ++ d :: skipn (S j) r
  /\ r = firstn j r ++ nth i c 0 :: skipn (S j) r.
Proof.
  intros L [ Hi1 Hi2 ]. list_of_length c L.
  do 2 (destruct i as [ | i ]; [ lia | ]).
  do 26 (destruct i as [ | i ]; [ split; reflexivity | ]).
  lia.
Qed.

Lemma Forall_firstn_skipn {A} (P : A -> Prop) (n : nat) (l : list A) :
  Forall P l -> Forall P (firstn n l) /\ Forall P (skipn n l).
Proof.
  intros H. apply Forall_app. rewrite firstn_skipn. exact H.
Qed.

Lemma set_nth_MA_26_digits (c : jsstring) (i : nat) (d : Z) :
  MA_26_digits c -> (2 <= i < 28)%nat -> isDigit d = true ->
  MA_26_digits (set_nth i d c).
Proof.
  intros (ds & -> & L & D) [ Hi1 Hi2 ] Hd.
  do 2 (destruct i as [ | i ]; [ lia | ]).
  exists (firstn i ds ++ d :: skipn (S i) ds).
  split; [ reflexivity | ]. split.
  - rewrite length_app, length_firstn.
    change (length (d :: skipn (S i) ds))
      with (S (length (skipn (S i) ds))).
    rewrite length_skipn. lia.
  - apply Forall_app. split.
    + apply (Forall_firstn_skipn _ i ds D).
    + constructor; [ apply isDigit_spec; exact Hd | ].
      apply (Forall_firstn_skipn _ (S i) ds D).
Qed.

Lemma digit_position (c : jsstring) (i : nat) :
  MA_26_digits c -> (i < length c)%nat -> isDigit (nth i c 0) = true ->
  (2 <= i < 28)%nat /\ length c = 28%nat.
Proof.
  intros (ds & -> & L & D) Hi Hd. simpl in Hi.
  split; [ | simpl; lia ].
  destruct i as [ | [ | i ] ]; [ discriminate Hd | discriminate Hd | lia ].
Qed.

Lemma MA_26_digits_normal (toUpperCase : jsstring -> jsstring) (c : jsstring) :
  fixes_upper_case toUpperCase -> MA_26_digits c ->
  normalizeIBAN toUpperCase c = c.
Proof.
  intros U (ds & -> & L & D). unfold normalizeIBAN.
  assert (F : Forall (fun c => isDecimalDigit c \/ 65 <= c <= 90)
                (77 :: 65 :: ds)).
  { constructor; [ right; lia | ]. constructor; [ right; lia | ].
    apply (Forall_impl _ (fun a H => or_introl H) D). }
  assert (W : replace_all isWhiteSpace (77 :: 65 :: ds) = 77 :: 65 :: ds).
  { unfold replace_all. apply forallb_filter_id. apply forallb_forall.
    intros x Hx. rewrite Forall_forall in F. specialize (F x Hx).
    unfold isDecimalDigit in F. unfold isWhiteSpace. lia. }
  rewrite W. apply U. exact F.
Qed.

(** C4.  When [isValidIBAN] accepts an input, replacing one digit of its
    normalised form by another digit gives a string that [isValidIBAN]
    rejects: the MOD 97-10 remainder changes.  [toUpperCase] leaves a string
    of digits and upper-case Basic Latin letters unchanged. *)
Theorem isValidIBAN_single_digit_mutation (banks : list BankDetails)
  (toUpperCase : jsstring -> jsstring) (s : jsstring) (i : nat) (d : Z) :
  fixes_upper_case toUpperCase ->
  isValidIBAN banks toUpperCase (VString s) = Normal true ->
  let c := normalizeIBAN toUpperCase s in
  (i < length c)%nat -> isDigit (nth i c 0) = true ->
  isDigit d = true -> d <> nth i c 0 ->
  isValidIBAN banks toUpperCase (VString (set_nth i d c)) = Normal false.
Proof.
  intros U V c Hi Hx Hd N.
  apply isValidIBAN_true_iff in V. fold c in V.
  destruct V as (M & _ & R).
  destruct (digit_position c i M Hi Hx) as [ P L ].
  pose proof (set_nth_MA_26_digits c i d M P Hd) as M'.
  destruct (isValidIBAN_string_boolean banks toUpperCase (set_nth i d c))
    as [ E | E ]; [ exfalso | exact E ].
  apply isValidIBAN_true_iff in E.
  rewrite (MA_26_digits_normal toUpperCase _ U M') in E.
  destruct E as (_ & _ & R').
  unfold iso7064_remainder, iso7064_digits in R, R'.
  destruct (rearranged_set_nth c i d L P) as [ E1 E2 ].
  rewrite E1 in R'. rewrite E2 in R. rewrite <- R' in R.
  revert R. apply iso7064_fold_mutation; auto.
Qed.

Lemma upperBasicLatin_fixes : fixes_upper_case upperBasicLatin.
Proof.
  intros t F. unfold upperBasicLatin.
  induction F as [ | c t H F IH ]; simpl; [ reflexivity | ].
  rewrite IH. f_equal. unfold isDecimalDigit in H.
  destruct ((97 <=? c) && (c <=? 122)) eqn:E; [ lia | reflexivity ].
Qed.

Lemma isValidIBAN_single_digit_mutation_witness :
  isValidIBAN sample_banks upperBasicLatin
    (VString (lit "MA98 0070 0000 0000 0000 0000 0001")) = Normal true
  /\ isValidIBAN sample_banks upperBasicLatin
       (VString
          (set_nth 27 50
             (normalizeIBAN upperBasicLatin
                (lit "MA98 0070 0000 0000 0000 0000 0001"))))
     = Normal false.
Proof.
  split; [ vm_compute; reflexivity | ].
  apply (isValidIBAN_single_digit_mutation sample_banks upperBasicLatin
           (lit "MA98 0070 0000 0000 0000 0000 0001") 27 50
           upperBasicLatin_fixes).
  - vm_compute. reflexivity.
  - vm_compute. apply le_n.
  - vm_compute. reflexivity.
  - reflexivity.
  - vm_compute. intros H. discriminate H.
Defined.

(** ** Normalisation *)

Lemma replace_all_idempotent (class : Z -> bool) (s : jsstring) :
  replace_all class (replace_all class s) = replace_all class s.
Proof.
  unfold replace_all. induction s as [ | c s IH ]; simpl; [ reflexivity | ].
  destruct (class c) eqn:E; simpl; [ exact IH | ].
  rewrite E. simpl. f_equal. exact IH.
Qed.

Lemma replace_all_no_white_space (s : jsstring) :
  no_white_space (replace_all isWhiteSpace s).
Proof.
  unfold no_white_space, replace_all. apply Forall_forall. intros x H.
  apply filter_In in H. destruct H as [ _ H ].
  apply negb_true_iff. exact H.
Qed.

Lemma replace_all_fixed (s : jsstring) :
  no_white_space s -> replace_all isWhiteSpace s = s.
Proof.
  unfold no_white_space, replace_all. intros F.
  induction F as [ | c s H F IH ]; simpl; [ reflexivity | ].
  rewrite H. simpl. f_equal. exact IH.
Qed.

(** C9.  The normalisations are idempotent: stripping white space and
    converting to upper case twice is the same as once, and so is stripping
    white space and hyphens.  Of [toUpperCase] the first half uses that it is
    idempotent and that it creates no white space. *)
Theorem normalization_idempotent (toUpperCase : jsstring -> jsstring)
  (s : jsstring) :
  idempotent_case toUpperCase -> keeps_no_white_space toUpperCase ->
  normalizeIBAN toUpperCase (normalizeIBAN toUpperCase s)
  = normalizeIBAN toUpperCase s
  /\ normalizeRIB (normalizeRIB s) = normalizeRIB s.
Proof.
  intros I K. split.
  - unfold normalizeIBAN.
    rewrite (replace_all_fixed (toUpperCase (replace_all isWhiteSpace s))).
    + apply I.
    + apply K. apply replace_all_no_white_space.
  - apply replace_all_idempotent.
Qed.

Lemma upperBasicLatin_idempotent : idempotent_case upperBasicLatin.
Proof.
  intros t. unfold upperBasicLatin. rewrite map_map. apply map_ext.
  intros c. destruct ((97 <=? c) && (c <=? 122)) eqn:E.
  - destruct ((97 <=? c - 32) && (c - 32 <=? 122)) eqn:E'; [ lia | ].
    reflexivity.
  - rewrite E. reflexivity.
Qed.

Lemma upperBasicLatin_keeps_no_white_space :
  keeps_no_white_space upperBasicLatin.
Proof.
  intros t F. unfold no_white_space, upperBasicLatin in *.
  induction F as [ | c t H F IH ]; simpl; constructor; [ | exact IH ].
  destruct ((97 <=? c) && (c <=? 122)) eqn:E; [ | exact H ].
  unfold isWhiteSpace. lia.
Qed.

Lemma normalization_idempotent_witness :
  normalizeIBAN upperBasicLatin
    (normalizeIBAN upperBasicLatin (lit "ma98 0070-0000"))
  = normalizeIBAN upperBasicLatin (lit "ma98 0070-0000")
  /\ normalizeRIB (normalizeRIB (lit "ma98 0070-0000"))
     = normalizeRIB (lit "ma98 0070-0000").
Proof.
  apply (normalization_idempotent upperBasicLatin (lit "ma98 0070-0000")).
  - exact upperBasicLatin_idempotent.
  - exact upperBasicLatin_keeps_no_white_space.
Defined.

(** ** The resolvers *)

(** The bank code [getBankDetails] looks up for a cleaned argument. *)
Lemma getBankDetails_string (banks : list BankDetails) (s : jsstring) :
  getBankDetails banks (VString s)
  = Normal
      (let cleanCode := normalizeRIB s in
       find_bank banks
         (if startsWith cleanCode (lit "MA") then substring cleanCode 4 7
          else substring cleanCode 0 3)).
Proof.
  unfold getBankDetails, getBankDetails_try, normalizeRIB. simpl.
  destruct (find_bank banks _); reflexivity.
Qed.

Lemma getBankDetails_String_object (banks : list BankDetails) (s : jsstring) :
  getBankDetails banks (VStringObject s) = getBankDetails banks (VString s).
Proof. reflexivity. Qed.

Lemma getBankDetails_without_replace (banks : list BankDetails) (v : JSValue) :
  has_replace v = false -> getBankDetails banks v = Normal None.
Proof.
  destruct v as [ | | | | | | | | [ m | ] ]; intros H;
    try discriminate H; reflexivity.
Qed.

Lemma getSwiftCode_escape (banks : list BankDetails) (code branch : JSValue)
  (e : Exception) :
  getBankDetails banks code = Throw e ->
  getSwiftCode banks code branch
  = (_ <- log_BankValidationException e ;; Normal None).
Proof.
  intros H. unfold getSwiftCode, getSwiftCode_try. rewrite H. reflexivity.
Qed.

Lemma getSwiftCode_resolved (banks : list BankDetails) (code branch : JSValue)
  (bank : BankDetails) :
  getBankDetails banks code = Normal (Some bank) ->
  getSwiftCode banks code branch
  = Normal
      (match (if truthy branch then branches bank else None) with
       | Some bank_branches =>
           option_map BranchDetails.swift
             (find (fun b => string_strict_eq (BranchDetails.code b) branch)
                bank_branches)
       | None => Some (swift bank)
       end).
Proof.
  intros H. unfold getSwiftCode, getSwiftCode_try. rewrite H. simpl.
  destruct (if truthy branch then branches bank else None) as [ bs | ];
    [ | reflexivity ].
  destruct (find _ bs); reflexivity.
Qed.

Lemma getSwiftCode_unresolved (banks : list BankDetails) (code branch : JSValue) :
  getBankDetails banks code = Normal None ->
  getSwiftCode banks code branch = Normal None.
Proof.
  intros H. unfold getSwiftCode, getSwiftCode_try. rewrite H. reflexivity.
Qed.

Lemma find_first {A} (p : A -> bool) (pre post : list A) (b : A) :
  p b = true -> (forall x, In x pre -> p x = false) ->
  find p (pre ++ b :: post) = Some b.
Proof.
  intros Hb. induction pre as [ | a pre IH ]; intros H; simpl.
  - rewrite Hb. reflexivity.
  - rewrite (H a) by (left; reflexivity). apply IH.
    intros x Hx. apply H. right. exact Hx.
Qed.

Lemma str_eqb_neq (a b : jsstring) : a <> b -> str_eqb a b = false.
Proof.
  intros N. destruct (str_eqb a b) eqn:E; [ | reflexivity ].
  apply str_eqb_eq in E. contradiction.
Qed.

(** C8.  [getSwiftCode] resolves the bank with [getBankDetails].  When the
    bank is not resolved the result is absent.  When it is: without a branch
    argument the result is the SWIFT of the bank; with a branch code, and a
    bank that has branches, the result is the SWIFT of the (first) branch
    whose code is equal to the argument, and absent when no branch has that
    code. *)
Theorem getSwiftCode_resolution (banks : list BankDetails)
  (code branch : JSValue) :
  (getBankDetails banks code = Normal None ->
   getSwiftCode banks code branch = Normal None)
  /\ (forall bank, getBankDetails banks code = Normal (Some bank) ->
        (branch = VUndefined ->
         getSwiftCode banks code branch = Normal (Some (swift bank)))
        /\ (forall br bs,
              branch = VString br -> br <> [] -> branches bank = Some bs ->
              (forall pre b post,
                 bs = pre ++ b :: post -> BranchDetails.code b = br ->
                 (forall x, In x pre -> BranchDetails.code x <> br) ->
                 getSwiftCode banks code branch
                 = Normal (Some (BranchDetails.swift b)))
              /\ ((forall x, In x bs -> BranchDetails.code x <> br) ->
                  getSwiftCode banks code branch = Normal None))).
Proof.
  split; [ apply getSwiftCode_unresolved | ].
  intros bank H. rewrite (getSwiftCode_resolved _ _ _ _ H). split.
  - intros ->. reflexivity.
  - intros br bs -> Hbr Hbs.
    assert (T : truthy (VString br) = true).
    { destruct br; [ contradiction | reflexivity ]. }
    rewrite T, Hbs. split.
    + intros pre b post -> Hb Hpre.
      rewrite (find_first _ pre post b); [ reflexivity | | ].
      * simpl. apply str_eqb_eq. exact Hb.
      * intros x Hx. simpl. apply str_eqb_neq. apply Hpre. exact Hx.
    + intros Hnone.
      destruct (find _ bs) as [ b | ] eqn:F; [ | reflexivity ].
      apply find_some in F. destruct F as [ Hin E ]. simpl in E.
      apply str_eqb_eq in E. exfalso. exact (Hnone b Hin E).
Qed.

(** C10.  For a code that resolves to a bank, [getSwiftCode] with the empty
    string as branch, or with any branch when the bank has no list of
    branches, returns the SWIFT of the bank; and it returns an absent result
    only for a branch argument that is truthy (a non-empty string) and a bank
    that has a list of branches. *)
Theorem getSwiftCode_default (banks : list BankDetails)
  (code branch : JSValue) (bank : BankDetails) :
  getBankDetails banks code = Normal (Some bank) ->
  getSwiftCode banks code (VString []) = Normal (Some (swift bank))
  /\ (branches bank = None ->
      getSwiftCode banks code branch = Normal (Some (swift bank)))
  /\ (getSwiftCode banks code branch = Normal None ->
      truthy branch = true /\ branches bank <> None).
Proof.
  intros H. rewrite !(getSwiftCode_resolved _ _ _ _ H). split; [ | split ].
  - reflexivity.
  - intros ->. destruct (truthy branch); reflexivity.
  - destruct (truthy branch); [ | discriminate ].
    destruct (branches bank) as [ bs | ]; [ | discriminate ].
    intros _. split; [ reflexivity | discriminate ].
Qed.

Lemma getSwiftCode_default_witness :
  getSwiftCode sample_banks (VString (lit "011 780")) (VString [])
  = Normal (Some (lit "BMCEMAMC"))
  /\ getSwiftCode sample_banks (VString (lit "011 780")) (VString (lit "0001"))
     = Normal (Some (lit "BMCEMAMC")).
Proof.
  assert (H : getBankDetails sample_banks (VString (lit "011 780"))
              = Normal (Some sample_bank_without_branches))
    by (vm_compute; reflexivity).
  destruct (getSwiftCode_default sample_banks (VString (lit "011 780"))
              (VString (lit "0001")) sample_bank_without_branches H)
    as (E & D & _).
  split; [ exact E | exact (D eq_refl) ].
Defined.

Example getSwiftCode_branch :
  getSwiftCode sample_banks (VString (lit "MA98 0070 0000")) (VString (lit "0001"))
  = Normal (Some (lit "BCMAMAMC001"))
  /\ getSwiftCode sample_banks (VString (lit "007")) (VString (lit "000"))
     = Normal None
  /\ getSwiftCode sample_banks (VString (lit "007")) VUndefined
     = Normal (Some (lit "BCMAMAMC"))
  /\ getSwiftCode sample_banks (VString (lit "999")) VUndefined = Normal None.
Proof. vm_compute. repeat split. Qed.

(** ** Which exceptions escape *)

Lemma handled {A} (body : Completion A) (r : A) :
  (forall e, body = Throw e -> inspectable e) ->
  exists a,
    try_catch body
      (fun error => _ <- log_BankValidationException error ;; Normal r)
    = Normal a.
Proof.
  destruct body as [ a | e ]; intros H; simpl.
  - exists a. reflexivity.
  - rewrite (H e eq_refl). exists r. reflexivity.
Qed.

Lemma string_receiver_throws (v : JSValue) (e : Exception) :
  string_receiver v = Throw e -> inspectable e.
Proof.
  destruct v; simpl; intros H; try discriminate H; injection H as <-;
    reflexivity.
Qed.

Ltac own_exception :=
  unfold throw_if;
  repeat match goal with
         | |- context [ match ?o with Some _ => _ | None => _ end ] =>
             destruct o
         | |- context [ if ?b then _ else _ ] => destruct b
         end;
  simpl; intros H; try discriminate H; injection H as <-; right; reflexivity.

(** What the [try] block of [isValidRIB] throws is what the method
    [replace] of the argument throws, or a value the handler can look at. *)
Lemma isValidRIB_try_throws (banks : list BankDetails) (v : JSValue)
  (e : Exception) :
  isValidRIB_try banks v = Throw e ->
  call_replace v isWhiteSpaceOrHyphen = Throw e \/ inspectable e.
Proof.
  unfold isValidRIB_try.
  destruct (call_replace v isWhiteSpaceOrHyphen) as [ r | e0 ]; simpl;
    [ | intros H; injection H as <-; left; reflexivity ].
  destruct (string_receiver r) as [ c | e1 ] eqn:R; simpl;
    [ | intros H; injection H as <-; right;
        exact (string_receiver_throws r e1 R) ].
  own_exception.
Qed.

Lemma getBankDetails_try_throws (banks : list BankDetails) (v : JSValue)
  (e : Exception) :
  getBankDetails_try banks v = Throw e ->
  call_replace v isWhiteSpaceOrHyphen = Throw e \/ inspectable e.
Proof.
  unfold getBankDetails_try.
  destruct (call_replace v isWhiteSpaceOrHyphen) as [ r | e0 ]; simpl;
    [ | intros H; injection H as <-; left; reflexivity ].
  destruct (string_receiver r) as [ c | e1 ] eqn:R; simpl;
    [ | intros H; injection H as <-; right;
        exact (string_receiver_throws r e1 R) ].
  unfold is_none. own_exception.
Qed.

Lemma getSwiftCode_after (banks : list BankDetails) (code branch : JSValue)
  (r : option BankDetails) :
  getBankDetails banks code = Normal r ->
  exists t, getSwiftCode banks code branch = Normal t.
Proof.
  intros H. unfold getSwiftCode, getSwiftCode_try. rewrite H. simpl.
  destruct r as [ bank | ]; [ | eexists; reflexivity ].
  destruct (if truthy branch then branches bank else None) as [ bs | ];
    [ | eexists; reflexivity ].
  destruct (find _ bs); eexists; reflexivity.
Qed.

Lemma isValidIBAN_normal (banks : list BankDetails)
  (toUpperCase : jsstring -> jsstring) (v : JSValue) :
  (exists b, isValidIBAN banks toUpperCase v = Normal b)
  /\ (typeof v <> TString -> isValidIBAN banks toUpperCase v = Normal false).
Proof.
  split.
  - destruct v; try (exists false; reflexivity).
    rewrite isValidIBAN_string. eexists. reflexivity.
  - destruct v; intros H; try reflexivity. exfalso. apply H. reflexivity.
Qed.

Lemma madToWords_normal (v : JSValue) :
  (exists t, madToWords v = Normal t)
  /\ (typeof v <> TNumber \/ v = VNumber NaN ->
      madToWords v = Normal (lit "erreur de conversion")).
Proof.
  split.
  - unfold madToWords, madToWords_try, throw_if.
    destruct (negb (JSType_eqb (typeof v) TNumber)
              || Num.isNaN (as_number v)); cbn [bind try_catch];
      [ eexists; reflexivity | ].
    destruct (Num.strict_eq (as_number v) (ofZ 0)); eexists; reflexivity.
  - intros [ H | -> ]; [ | reflexivity ].
    destruct v; try reflexivity. exfalso. apply H. reflexivity.
Qed.

Lemma isValidRIB_without_replace (banks : list BankDetails) (v : JSValue) :
  has_replace v = false -> isValidRIB banks v = Normal false.
Proof.
  destruct v as [ | | | | | | | | [ m | ] ]; intros H;
    try discriminate H; reflexivity.
Qed.

(** C3, as the code has it.  [isValidIBAN] and [madToWords] test the type of
    their argument first: they complete normally on every value, with
    [false] for every value that is not a string, and with the string
    [erreur de conversion] for every value that is not a number and for
    [NaN].  [isValidRIB], [getBankDetails] and [getSwiftCode] call the method
    [replace] of their argument without a test.  On a value that has no such
    method (undefined, null, a boolean, a number, a bigint, a symbol, an
    object without it) they return [false] or an absent result.  They
    complete normally whenever the handler can look at what the method
    throws; this covers every string, every String object, and every object
    whose method returns a string, a String object or a value without the
    methods of strings.  When the method throws a value [e] and the look of
    the handler at it throws [e'], then [e'] escapes from [isValidRIB] and
    from [getBankDetails], and [getSwiftCode] catches it in turn.  A String
    object gets the result of the string it wraps. *)
Theorem public_functions_complete_normally (banks : list BankDetails)
  (toUpperCase : jsstring -> jsstring) (v w : JSValue) :
  ((exists b, isValidIBAN banks toUpperCase v = Normal b)
   /\ (typeof v <> TString -> isValidIBAN banks toUpperCase v = Normal false)
   /\ (exists t, madToWords v = Normal t)
   /\ (typeof v <> TNumber \/ v = VNumber NaN ->
       madToWords v = Normal (lit "erreur de conversion")))
  /\ (has_replace v = false ->
      isValidRIB banks v = Normal false
      /\ getBankDetails banks v = Normal None
      /\ getSwiftCode banks v w = Normal None)
  /\ ((forall e, call_replace v isWhiteSpaceOrHyphen = Throw e ->
                 inspectable e) ->
      (exists b, isValidRIB banks v = Normal b)
      /\ (exists r, getBankDetails banks v = Normal r)
      /\ (exists r, getSwiftCode banks v w = Normal r))
  /\ (forall e e',
        call_replace v isWhiteSpaceOrHyphen = Throw e ->
        log_BankValidationException e = Throw e' ->
        isValidRIB banks v = Throw e'
        /\ getBankDetails banks v = Throw e'
        /\ getSwiftCode banks v w
           = (_ <- log_BankValidationException e' ;; Normal None))
  /\ (forall s, v = VStringObject s ->
        isValidRIB banks v = isValidRIB banks (VString s)
        /\ getBankDetails banks v = getBankDetails banks (VString s)
        /\ getSwiftCode banks v w = getSwiftCode banks (VString s) w).
Proof.
  split; [ | split; [ | split; [ | split ] ] ].
  - destruct (isValidIBAN_normal banks toUpperCase v) as [ A B ].
    destruct (madToWords_normal v) as [ C D ]. auto.
  - intros H. split; [ | split ].
    + apply isValidRIB_without_replace. exact H.
    + apply getBankDetails_without_replace. exact H.
    + apply getSwiftCode_unresolved.
      apply getBankDetails_without_replace. exact H.
  - intros H.
    assert (G : exists r, getBankDetails banks v = Normal r).
    { apply handled. intros e T.
      destruct (getBankDetails_try_throws banks v e T) as [ R | I ];
        [ exact (H e R) | exact I ]. }
    split; [ | split; [ exact G | ] ].
    + apply handled. intros e T.
      destruct (isValidRIB_try_throws banks v e T) as [ R | I ];
        [ exact (H e R) | exact I ].
    + destruct G as (r & G). exact (getSwiftCode_after banks v w r G).
  - intros e e' R L.
    assert (G : getBankDetails banks v = Throw e').
    { unfold getBankDetails, getBankDetails_try. rewrite R. simpl.
      rewrite L. reflexivity. }
    split; [ | split; [ exact G | ] ].
    + unfold isValidRIB, isValidRIB_try. rewrite R. simpl.
      rewrite L. reflexivity.
    + apply getSwiftCode_escape. exact G.
  - intros s ->. repeat split.
Qed.

Lemma public_functions_complete_normally_witness :
  (exists b,
     isValidRIB sample_banks
       (VStringObject (lit "007 780-0001234567890123-18")) = Normal b)
  /\ isValidRIB sample_banks (VNumber (ofZ 7)) = Normal false
  /\ getBankDetails sample_banks VUndefined = Normal None.
Proof.
  destruct (public_functions_complete_normally sample_banks upperBasicLatin
              (VStringObject (lit "007 780-0001234567890123-18")) VUndefined)
    as (_ & _ & A & _).
  destruct (public_functions_complete_normally sample_banks upperBasicLatin
              (VNumber (ofZ 7)) VUndefined) as (_ & B & _).
  destruct (public_functions_complete_normally sample_banks upperBasicLatin
              VUndefined VUndefined) as (_ & C & _).
  split; [ | split ].
  - apply A. intros e H. discriminate H.
  - apply B. reflexivity.
  - apply C. reflexivity.
Defined.

(** C3 as stated fails on arguments that are objects.  An object whose
    [replace] throws a Proxy with a throwing [getPrototypeOf] trap makes the
    test [instanceof] of the handler throw: the exception escapes from
    [isValidRIB] and [getBankDetails], and from [getSwiftCode] when the
    value the trap throws is such a Proxy again.  And a String object that
    wraps a valid RIB is not a string, yet [isValidRIB] returns [true] on it
    and the resolvers resolve it. *)
Lemma exception_escapes_the_handler :
  isValidRIB sample_banks object_throwing_a_proxy = Throw (ThrownValue None)
  /\ getBankDetails sample_banks object_throwing_a_proxy
     = Throw (ThrownValue None)
  /\ getSwiftCode sample_banks object_throwing_a_proxy_twice VUndefined
     = Throw (ThrownValue None)
  /\ typeof (VStringObject (lit "007 780-0001234567890123-18")) = TObject
  /\ isValidRIB sample_banks
       (VStringObject (lit "007 780-0001234567890123-18")) = Normal true
  /\ getSwiftCode sample_banks
       (VStringObject (lit "007 780-0001234567890123-18")) VUndefined
     = Normal (Some (lit "BCMAMAMC")).
Proof. vm_compute. repeat split. Qed.

(** ** Decimal digits *)

Lemma is_digit_count_unique (n : Z) (k1 k2 : nat) :
  is_digit_count n k1 -> is_digit_count n k2 -> k1 = k2.
Proof.
  unfold is_digit_count. intros (A1 & B1 & C1) (A2 & B2 & C2).
  destruct (Nat.lt_trichotomy k1 k2) as [ L | [ E | L ] ]; [ | exact E | ];
    exfalso.
  - destruct C2 as [ C2 | C2 ]; [ lia | ].
    assert (10 ^ Z.of_nat k1 <= 10 ^ (Z.of_nat k2 - 1))
      by (apply Z.pow_le_mono_r; lia).
    lia.
  - destruct C1 as [ C1 | C1 ]; [ lia | ].
    assert (10 ^ Z.of_nat k2 <= 10 ^ (Z.of_nat k1 - 1))
      by (apply Z.pow_le_mono_r; lia).
    lia.
Qed.

Lemma digitCount_from_spec (fuel k : nat) (n : Z) :
  (1 <= k)%nat -> (k = 1%nat \/ 10 ^ (Z.of_nat k - 1) <= n) ->
  n < 10 ^ Z.of_nat (k + fuel) ->
  is_digit_count n (digitCount_from fuel k n).
Proof.
  revert k. induction fuel as [ | fuel IH ]; intros k K L U; simpl.
  - rewrite Nat.add_0_r in U. unfold is_digit_count. auto.
  - destruct (Z.ltb_spec n (10 ^ Z.of_nat k)) as [ H | H ].
    + unfold is_digit_count. auto.
    + apply IH.
      * lia.
      * right. replace (Z.of_nat (S k) - 1) with (Z.of_nat k) by lia.
        exact H.
      * replace (S k + fuel)%nat with (k + S fuel)%nat by lia. exact U.
Qed.

Lemma digitCount_spec (n : Z) : 0 <= n -> is_digit_count n (digitCount n).
Proof.
  intros H. unfold digitCount. apply digitCount_from_spec.
  - lia.
  - left. reflexivity.
  - pose proof (Z.pow_gt_lin_r 10 n ltac:(lia) H) as P.
    replace (Z.of_nat (1 + Z.to_nat n)) with (Z.succ n) by lia.
    rewrite Z.pow_succ_r by lia. lia.
Qed.

Lemma digits_loop_count (fuel : nat) (n : Z) (acc : jsstring) :
  (1 <= fuel)%nat -> 0 <= n < 2 ^ Z.of_nat fuel ->
  exists k, is_digit_count n k
            /\ length (digits_loop fuel n acc) = (k + length acc)%nat.
Proof.
  revert n acc. induction fuel as [ | fuel IH ]; intros n acc F [ N0 N1 ];
    [ lia | ].
  cbn [digits_loop]. destruct (Z.ltb_spec n 10) as [ H | H ].
  - exists 1%nat. split; [ | reflexivity ].
    unfold is_digit_count. simpl. lia.
  - rewrite Nat2Z.inj_succ, Z.pow_succ_r in N1 by lia.
    assert (F' : (1 <= fuel)%nat).
    { destruct fuel; [ simpl in N1; lia | lia ]. }
    assert (D : 0 <= n / 10 < 2 ^ Z.of_nat fuel).
    { split; [ apply Z.div_pos; lia | ].
      apply Z.div_lt_upper_bound; lia. }
    destruct (IH (n / 10) ((48 + n mod 10) :: acc) F' D) as (k & (A & B & C) & L).
    exists (S k). split.
    + unfold is_digit_count. split; [ lia | ].
      rewrite Nat2Z.inj_succ, Z.pow_succ_r by lia.
      pose proof (Z.div_mod n 10 ltac:(lia)) as E.
      pose proof (Z.mod_pos_bound n 10 ltac:(lia)) as M.
      split; [ lia | ]. right.
      replace (Z.succ (Z.of_nat k) - 1) with (Z.of_nat k) by lia.
      destruct C as [ -> | C ]; [ simpl; lia | ].
      replace (Z.of_nat k) with (Z.succ (Z.of_nat k - 1)) by lia.
      rewrite Z.pow_succ_r by lia. lia.
    + rewrite L. simpl. lia.
Qed.

Lemma length_digits (n : Z) : 0 <= n -> length (digits n) = digitCount n.
Proof.
  intros H. unfold digits.
  destruct (digits_loop_count (S (Z.to_nat (Z.log2 n))) n []) as (k & K & L).
  - lia.
  - split; [ exact H | ].
    pose proof (Z.log2_nonneg n) as P.
    replace (Z.of_nat (S (Z.to_nat (Z.log2 n)))) with (Z.succ (Z.log2 n))
      by lia.
    destruct (Z.eq_dec n 0) as [ -> | N ]; [ reflexivity | ].
    apply Z.log2_spec. lia.
  - rewrite L. simpl. rewrite Nat.add_0_r.
    apply (is_digit_count_unique n); [ exact K | ].
    apply digitCount_spec. exact H.
Qed.

Lemma numberToString_ofZ (v : Z) :
  0 <= v -> numberToString (ofZ v) = digits v.
Proof.
  intros H. unfold numberToString, ofZ, Num.Qtrunc, inject_Z. simpl.
  rewrite Z.quot_1_r. unfold integerToString.
  destruct (Z.ltb_spec v 0); [ lia | reflexivity ].
Qed.

(** ** [parseInt] *)

Lemma digitValue_nonneg (c d : Z) : digitValue c = Some d -> 0 <= d.
Proof.
  unfold digitValue.
  destruct ((48 <=? c) && (c <=? 57)) eqn:E1;
    [ intros H; injection H as <-; lia | ].
  destruct ((97 <=? c) && (c <=? 122)) eqn:E2;
    [ intros H; injection H as <-; lia | ].
  destruct ((65 <=? c) && (c <=? 90)) eqn:E3;
    [ intros H; injection H as <-; lia | discriminate ].
Qed.

Lemma parseDigits_nonneg (s : jsstring) (acc : option Z) (v : Z) :
  (forall a, acc = Some a -> 0 <= a) ->
  parseDigits 10 s acc = Some v -> 0 <= v.
Proof.
  revert acc. induction s as [ | c t IH ]; intros acc A; simpl.
  - intros H. apply A. exact H.
  - destruct (digitValue c) as [ d | ] eqn:D; [ | apply A ].
    destruct (d <? 10); [ | apply A ].
    apply IH. intros a H. injection H as <-.
    apply digitValue_nonneg in D.
    destruct acc as [ a | ]; [ | exact D ].
    specialize (A a eq_refl). lia.
Qed.

Lemma parseInt_clean (s : jsstring) :
  clean_head s ->
  parseInt s (Some 10) = NaN
  \/ exists v, 0 <= v /\ parseInt s (Some 10) = ofZ v.
Proof.
  destruct s as [ | c t ]; intros H; [ left; reflexivity | ].
  simpl in H. unfold isWhiteSpaceOrHyphen in H.
  apply orb_false_iff in H. destruct H as [ W M ].
  unfold parseInt. simpl dropWhile. rewrite W, M. simpl.
  destruct (c =? 43).
  - destruct (parseDigits 10 t None) as [ v | ] eqn:P; [ right | left; reflexivity ].
    exists v. split; [ | reflexivity ].
    apply (parseDigits_nonneg t None v); [ discriminate | exact P ].
  - destruct (parseDigits 10 (c :: t) None) as [ v | ] eqn:P;
      [ right | left; reflexivity ].
    exists v. split; [ | reflexivity ].
    apply (parseDigits_nonneg (c :: t) None v); [ discriminate | exact P ].
Qed.

Lemma parseDigits_bound (s : jsstring) (acc : option Z) (k v : Z) :
  0 <= k ->
  (forall a, acc = Some a -> 0 <= a < 10 ^ k) ->
  parseDigits 10 s acc = Some v -> 0 <= v < 10 ^ (k + Z.of_nat (length s)).
Proof.
  revert acc k. induction s as [ | c t IH ]; intros acc k K A.
  - simpl. intros H. rewrite Z.add_0_r. apply A. exact H.
  - assert (M : 10 ^ k <= 10 ^ (k + Z.of_nat (length (c :: t))))
      by (apply Z.pow_le_mono_r; lia).
    assert (Stop : acc = Some v ->
                   0 <= v < 10 ^ (k + Z.of_nat (length (c :: t)))).
    { intros H. specialize (A v H). lia. }
    cbn [parseDigits].
    destruct (digitValue c) as [ d | ] eqn:D; [ | exact Stop ].
    destruct (Z.ltb_spec d 10) as [ L | L ]; [ | exact Stop ].
    intros H. apply (IH _ (k + 1)) in H.
    + replace (k + Z.of_nat (length (c :: t)))
        with (k + 1 + Z.of_nat (length t)) by (simpl length; lia).
      exact H.
    + lia.
    + intros a' E. injection E as <-. apply digitValue_nonneg in D.
      assert (P : 0 < 10 ^ k) by (apply Z.pow_pos_nonneg; lia).
      rewrite Z.pow_add_r, Z.pow_1_r by lia.
      destruct acc as [ a | ]; [ specialize (A a eq_refl) | ]; lia.
Qed.

Lemma parseInt_clean_bound (s : jsstring) :
  clean_head s ->
  parseInt s (Some 10) = NaN
  \/ exists v, 0 <= v < 10 ^ Z.of_nat (length s)
                /\ parseInt s (Some 10) = ofZ v.
Proof.
  destruct s as [ | c t ]; intros H; [ left; reflexivity | ].
  simpl in H. unfold isWhiteSpaceOrHyphen in H.
  apply orb_false_iff in H. destruct H as [ W M ].
  assert (M1 : 10 ^ (0 + Z.of_nat (length t))
               <= 10 ^ Z.of_nat (length (c :: t)))
    by (apply Z.pow_le_mono_r; simpl length; lia).
  assert (M2 : 10 ^ (0 + Z.of_nat (length (c :: t)))
               = 10 ^ Z.of_nat (length (c :: t)))
    by (rewrite Z.add_0_l; reflexivity).
  remember (10 ^ Z.of_nat (length (c :: t))) as bound eqn:Eb. clear Eb.
  unfold parseInt. simpl dropWhile. rewrite W, M. simpl.
  destruct (c =? 43).
  - destruct (parseDigits 10 t None) as [ v | ] eqn:P;
      [ right | left; reflexivity ].
    exists v. split; [ | reflexivity ].
    pose proof (parseDigits_bound t None 0 v ltac:(lia)
                  ltac:(discriminate) P) as B.
    lia.
  - destruct (parseDigits 10 (c :: t) None) as [ v | ] eqn:P;
      [ right | left; reflexivity ].
    exists v. split; [ | reflexivity ].
    rewrite <- M2.
    exact (parseDigits_bound (c :: t) None 0 v ltac:(lia)
             ltac:(discriminate) P).
Qed.

Lemma integer_of_ofZ (v : Z) : integer_of (ofZ v) = Some v.
Proof.
  unfold integer_of, ofZ. rewrite Qfloor_Z, Qeq_bool_refl. reflexivity.
Qed.

Lemma parseInt_integer (s : jsstring) :
  parseInt s (Some 10) = NaN \/ exists v, parseInt s (Some 10) = ofZ v.
Proof.
  unfold parseInt.
  destruct (dropWhile isWhiteSpace s) as [ | c t ]; simpl.
  - left. reflexivity.
  - destruct (c =? 45); [ | destruct (c =? 43) ];
      match goal with
      | |- context [ parseDigits 10 ?l None ] =>
          destruct (parseDigits 10 l None); eauto
      end.
Qed.

(** ** [isValidRIB] *)

Lemma slice_payload (s : jsstring) : slice s 0 (Some (-2)) = rib_payload s.
Proof.
  unfold slice, slice_index, rib_payload.
  change (0 <? 0) with false. change (-2 <? 0) with true. cbv iota.
  rewrite (Z.min_l 0) by lia. simpl skipn. f_equal. lia.
Qed.

Lemma slice_key (s : jsstring) : slice s (-2) None = rib_key_chars s.
Proof.
  unfold slice, slice_index, rib_key_chars.
  change (-2 <? 0) with true. cbv iota.
  replace (Z.to_nat (Z.max (Z.of_nat (length s) + -2) 0))
    with (length s - 2)%nat by lia.
  apply firstn_all2. rewrite length_skipn. lia.
Qed.

Lemma substring_prefix3 (s : jsstring) : substring s 0 3 = firstn 3 s.
Proof.
  unfold substring, clamp.
  destruct (Nat.le_gt_cases 3 (length s)) as [ L | L ].
  - replace (Z.to_nat _) with 3%nat by lia.
    replace (Z.to_nat _) with 0%nat by lia. reflexivity.
  - replace (Z.to_nat (Z.min _ _)) with 0%nat by lia.
    replace (Z.to_nat _) with (length s) by lia.
    simpl skipn. rewrite firstn_all. symmetry. apply firstn_all2. lia.
Qed.

Lemma firstn_min_length {A} (n : nat) (l : list A) :
  firstn (Nat.min n (length l)) l = firstn n l.
Proof.
  destruct (Nat.le_gt_cases n (length l)) as [ L | L ].
  - rewrite Nat.min_l by lia. reflexivity.
  - rewrite Nat.min_r by lia. rewrite firstn_all.
    symmetry. apply firstn_all2. lia.
Qed.

Lemma slice_chunk (s : jsstring) (i : nat) :
  (i <= length s)%nat ->
  slice s (Z.of_nat i) (Some (Z.of_nat i + 7)) = firstn 7 (skipn i s).
Proof.
  intros H. unfold slice, slice_index.
  destruct (Z.ltb_spec (Z.of_nat i) 0); [ lia | ].
  destruct (Z.ltb_spec (Z.of_nat i + 7) 0); [ lia | ].
  rewrite (Z.min_l (Z.of_nat i)) by lia. rewrite Nat2Z.id.
  rewrite <- (firstn_min_length 7 (skipn i s)). rewrite length_skipn.
  f_equal. lia.
Qed.

Lemma chunks_loop_spec (payload : jsstring) (fuel i : nat)
  (chunks : list number) :
  chunks_loop payload fuel i chunks
  = chunks ++ map parse_chunk (chunks_of fuel (skipn i payload)).
Proof.
  revert i chunks. induction fuel as [ | fuel IH ]; intros i chunks.
  - simpl. rewrite app_nil_r. reflexivity.
  - cbn [chunks_loop chunks_of].
    destruct (Nat.ltb_spec i (length payload)) as [ L | L ].
    + rewrite IH. rewrite <- app_assoc.
      rewrite slice_chunk by lia.
      destruct (skipn i payload) as [ | c t ] eqn:E.
      * exfalso. apply (f_equal (@length Z)) in E.
        rewrite length_skipn in E. simpl in E. lia.
      * rewrite <- E. rewrite skipn_skipn.
        replace (7 + i)%nat with (i + 7)%nat by lia. reflexivity.
    + rewrite skipn_all2 by lia. rewrite app_nil_r. reflexivity.
Qed.

Lemma chunks_of_concat (fuel : nat) (s : jsstring) :
  (length s <= fuel)%nat -> concat (chunks_of fuel s) = s.
Proof.
  revert s. induction fuel as [ | fuel IH ]; intros s H.
  - destruct s; [ reflexivity | simpl in H; lia ].
  - destruct s as [ | c t ]; [ reflexivity | ].
    cbn [chunks_of concat]. rewrite IH.
    + apply firstn_skipn.
    + rewrite length_skipn. simpl length in *. lia.
Qed.

Lemma chunks_of_length (fuel : nat) (s : jsstring) :
  Forall (fun c => (1 <= length c <= 7)%nat) (chunks_of fuel s).
Proof.
  revert s. induction fuel as [ | fuel IH ]; intros s; [ constructor | ].
  destruct s as [ | c t ]; [ constructor | ].
  cbn [chunks_of]. constructor; [ | apply IH ].
  rewrite length_firstn. simpl length. lia.
Qed.

Lemma chunks_of_clean (fuel : nat) (s : jsstring) :
  clean_string s -> Forall clean_head (chunks_of fuel s).
Proof.
  revert s. induction fuel as [ | fuel IH ]; intros s H; [ constructor | ].
  destruct s as [ | c t ]; [ constructor | ].
  cbn [chunks_of]. constructor.
  - inversion H; subst. assumption.
  - apply IH. apply (Forall_firstn_skipn _ 7 (c :: t) H).
Qed.

Lemma normalizeRIB_clean (s : jsstring) : clean_string (normalizeRIB s).
Proof.
  unfold clean_string, normalizeRIB, replace_all. apply Forall_forall.
  intros x H. apply filter_In in H. destruct H as [ _ H ].
  apply negb_true_iff. exact H.
Qed.

Lemma rib_code_step_NaN (chunk : number) : rib_code_step NaN chunk = NaN.
Proof. reflexivity. Qed.

Lemma rib_code_step_chunk_NaN (r : Z) : rib_code_step (ofZ r) NaN = NaN.
Proof.
  unfold rib_code_step. destruct (Num.mul _ _) as [ | s | x ]; reflexivity.
Qed.

Lemma fold_rib_code_step_NaN (chunks : list number) :
  fold_left rib_code_step chunks NaN = NaN.
Proof.
  induction chunks as [ | c t IH ]; simpl; [ reflexivity | exact IH ].
Qed.

Lemma digitCount_power (v : Z) :
  0 <= v < 10 ^ 7 -> 0 < 10 ^ Z.of_nat (digitCount v) <= 10 ^ 7.
Proof.
  intros H. destruct (digitCount_spec v (proj1 H)) as (K1 & _ & K2).
  split; [ apply Z.pow_pos_nonneg; lia | ].
  apply Z.pow_le_mono_r; [ lia | ].
  destruct K2 as [ -> | K2 ]; [ lia | ].
  assert (L : 10 ^ (Z.of_nat (digitCount v) - 1) < 10 ^ 7) by lia.
  apply Z.pow_lt_mono_r_iff in L; lia.
Qed.

Lemma rib_code_step_ofZ (r v : Z) :
  0 <= r < 97 -> 0 <= v < 10 ^ 7 ->
  rib_code_step (ofZ r) (ofZ v) = ofZ (rib_step r v).
Proof.
  intros Hr Hv. unfold rib_code_step, rib_step, Math.pow10.
  rewrite (numberToString_ofZ v (proj1 Hv)), (length_digits v (proj1 Hv)).
  pose proof (digitCount_power v Hv) as P.
  change (10 ^ 7) with 10000000 in *.
  rewrite mul_ofZ, add_ofZ
    by (change (2 ^ 53) with 9007199254740992; nia).
  apply rem_ofZ_nonneg. nia.
Qed.

Lemma rib_step_range (r v : Z) : 0 <= rib_step r v < 97.
Proof. unfold rib_step. apply Z.mod_pos_bound. lia. Qed.

Lemma rib_code_fold (chunks : list jsstring) (r : Z) :
  Forall (fun c => clean_head c /\ (length c <= 7)%nat) chunks ->
  0 <= r < 97 ->
  fold_left rib_code_step (map parse_chunk chunks) (ofZ r)
  = number_of_result (rib_fold chunks r)
  /\ (forall r', rib_fold chunks r = Some r' -> 0 <= r' < 97).
Proof.
  intros F. revert r. induction F as [ | c t [ Hc Lc ] F IH ]; intros r Hr.
  - simpl. split; [ reflexivity | ]. intros r' H. injection H as <-. exact Hr.
  - cbn [map fold_left rib_fold]. unfold parse_base10.
    change (parse_chunk c) with (parseInt c (Some 10)).
    destruct (parseInt_clean_bound c Hc) as [ E | (v & Hv & E) ]; rewrite E.
    + rewrite rib_code_step_chunk_NaN, fold_rib_code_step_NaN.
      simpl. split; [ reflexivity | discriminate ].
    + rewrite integer_of_ofZ.
      assert (B : 10 ^ Z.of_nat (length c) <= 10 ^ 7)
        by (apply Z.pow_le_mono_r; lia).
      rewrite rib_code_step_ofZ by lia.
      apply IH. apply rib_step_range.
Qed.

Lemma Forall_and {A} (P Q : A -> Prop) (l : list A) :
  Forall P l -> Forall Q l -> Forall (fun x => P x /\ Q x) l.
Proof.
  intros HP HQ. rewrite Forall_forall in *. intros x I. split; auto.
Qed.

Lemma rib_code_remainder_spec (clean : jsstring) :
  clean_string clean ->
  rib_code_remainder clean
  = number_of_result (rib_fold (rib_chunks (rib_payload clean)) 0)
  /\ (forall r, rib_fold (rib_chunks (rib_payload clean)) 0 = Some r ->
                0 <= r < 97).
Proof.
  intros C. unfold rib_code_remainder. rewrite slice_payload.
  rewrite chunks_loop_spec. simpl (skipn 0 _). simpl ([] ++ _).
  apply rib_code_fold; [ | lia ].
  apply Forall_and.
  - apply chunks_of_clean. unfold rib_payload.
    apply (Forall_firstn_skipn _ (length clean - 2) clean C).
  - apply (Forall_impl _ (P := fun c => (1 <= length c <= 7)%nat));
      [ intros c H; lia | apply chunks_of_length ].
Qed.

Lemma isValidRIB_checked (banks : list BankDetails) (rib : jsstring)
  (bank : BankDetails) :
  let clean := normalizeRIB rib in
  find_bank banks (firstn 3 clean) = Some bank ->
  Z.of_nat (length clean) = ribLength bank ->
  ribRegex bank clean = true ->
  isValidRIB banks (VString rib)
  = Normal
      (Num.strict_eq
         (Num.rem (Num.sub (ofZ 97) (rib_code_remainder clean)) (ofZ 97))
         (parseInt (slice clean (-2) None) (Some 10))).
Proof.
  intros clean F L R.
  unfold isValidRIB, isValidRIB_try. simpl. fold (normalizeRIB rib).
  fold clean. rewrite substring_prefix3, F. simpl.
  rewrite L, Z.eqb_refl, R. simpl.
  fold rib_code_step. fold (rib_code_remainder clean).
  destruct (Num.strict_eq _ _); reflexivity.
Qed.

Lemma boolean_result (b : bool) (P : Prop) :
  (b = true <-> P) ->
  (Normal b = Normal true <-> P) /\ (Normal b = Normal false <-> ~ P).
Proof.
  intros H. destruct b; split; split.
  - intros _. apply H. reflexivity.
  - reflexivity.
  - discriminate.
  - intros N. exfalso. apply N. apply H. reflexivity.
  - discriminate.
  - intros p. apply H in p. discriminate p.
  - intros _ p. apply H in p. discriminate p.
  - reflexivity.
Qed.

(** C2.  For a RIB that passes the bank lookup, the length check and the
    pattern check, [isValidRIB] returns [true] exactly when the key
    recomputed from the payload is the number the last two characters parse
    to, and [false] otherwise.  The payload is cut left to right into chunks
    of at most seven characters, each parsed as a decimal integer and folded
    with the multiplier 10 to the number of digits of the parsed integer; the
    expected key is 97 minus the remainder, modulo 97. *)
Theorem isValidRIB_key_check (banks : list BankDetails) (rib : jsstring)
  (bank : BankDetails) :
  let clean := normalizeRIB rib in
  find_bank banks (firstn 3 clean) = Some bank ->
  Z.of_nat (length clean) = ribLength bank ->
  ribRegex bank clean = true ->
  (isValidRIB banks (VString rib) = Normal true <-> rib_key_matches clean)
  /\ (isValidRIB banks (VString rib) = Normal false
      <-> ~ rib_key_matches clean).
Proof.
  intros clean F L R.
  rewrite (isValidRIB_checked banks rib bank F L R). fold clean.
  apply boolean_result.
  rewrite slice_key.
  destruct (rib_code_remainder_spec clean (normalizeRIB_clean rib))
    as [ E B ].
  rewrite E. unfold rib_key_matches, rib_expected_key, parse_base10.
  destruct (rib_fold (rib_chunks (rib_payload clean)) 0) as [ r | ].
  - specialize (B r eq_refl). cbn [number_of_result option_map].
    rewrite sub_ofZ, rem_ofZ_nonneg by lia.
    destruct (parseInt_integer (rib_key_chars clean)) as [ K | (k & K) ];
      rewrite K.
    + simpl. split; [ discriminate | ].
      intros (key & _ & H). discriminate H.
    + rewrite strict_eq_ofZ, integer_of_ofZ. rewrite Z.eqb_eq. split.
      * intros Q. exists k. rewrite Q. auto.
      * intros (key & H1 & H2). congruence.
  - simpl. split; [ discriminate | ].
    intros (key & H & _). discriminate H.
Qed.

Lemma isValidRIB_key_check_witness :
  isValidRIB sample_banks (VString (lit "007 780-0001234567890123-18"))
  = Normal true
  /\ rib_key_matches (normalizeRIB (lit "007 780-0001234567890123-18")).
Proof.
  assert (V : isValidRIB sample_banks
                (VString (lit "007 780-0001234567890123-18")) = Normal true)
    by (vm_compute; reflexivity).
  split; [ exact V | ].
  pose proof (isValidRIB_key_check sample_banks
                (lit "007 780-0001234567890123-18") sample_bank) as T.
  cbv zeta in T.
  apply T; [ vm_compute; reflexivity .. | exact V ].
Defined.

(** The chunk [0001234] is the integer 1234 and counts four digits. *)
Example chunk_with_leading_zeros :
  parse_base10 (lit "0001234") = Some 1234
  /\ digitCount 1234 = 4%nat
  /\ rib_chunks (rib_payload (lit "007780000123456789012318"))
     = [lit "0077800"; lit "0012345"; lit "6789012"; lit "3"]
  /\ rib_expected_key (lit "007780000123456789012318") = Some 18.
Proof. vm_compute. repeat split. Qed.

(** The chunks of a payload are the payload, cut. *)
Lemma rib_chunks_concat (payload : jsstring) :
  concat (rib_chunks payload) = payload
  /\ Forall (fun c => (1 <= length c <= 7)%nat) (rib_chunks payload).
Proof.
  split.
  - apply chunks_of_concat. apply le_n.
  - apply chunks_of_length.
Qed.

(** ** [madToWords] *)

Lemma forallb_range (p : Z -> bool) (lo len : nat) :
  forallb p (map Z.of_nat (seq lo len)) = true ->
  forall n, Z.of_nat lo <= n < Z.of_nat (lo + len) -> p n = true.
Proof.
  intros H n R. rewrite forallb_forall in H. apply H.
  replace n with (Z.of_nat (Z.to_nat n)) by lia.
  apply in_map. apply in_seq. lia.
Qed.

Lemma check_group_all :
  forallb check_group (map Z.of_nat (seq 100 900)) = true.
Proof. vm_compute. reflexivity. Qed.

(** C6, as the code has it.  A group of 100 to 999 is rendered with the word
    [cent], never [cents]: preceded by the unit word of the hundreds from 200
    on, bare from 100 to 199, and followed by the words of the rest when
    there is one.  So 200 is [deux cent], 100 is [cent], and
    [madToWords(1234)] is [mille deux cent trente-quatre dirhams]. *)
Theorem convertLessThanThousand_hundreds (n : Z) :
  100 <= n <= 999 ->
  group_words n = hundreds_rendering n
  /\ isInfixOf (lit "cents") (group_words n) = false
  /\ group_words 200 = lit "deux cent"
  /\ group_words 100 = lit "cent"
  /\ madToWords (VNumber (ofZ 1234))
     = Normal (lit "mille deux cent trente-quatre dirhams").
Proof.
  intros H.
  pose proof (forallb_range check_group 100 900 check_group_all n) as C.
  unfold check_group in C. rewrite andb_true_iff in C.
  destruct C as [ C1 C2 ]; [ simpl; lia | ].
  apply str_eqb_eq in C1. apply negb_true_iff in C2.
  repeat split; try assumption; vm_compute; reflexivity.
Qed.

Lemma convertLessThanThousand_hundreds_witness :
  group_words 234 = lit "deux cent trente-quatre"
  /\ isInfixOf (lit "cents") (group_words 234) = false.
Proof.
  destruct (convertLessThanThousand_hundreds 234) as (A & B & _).
  - lia.
  - split; [ rewrite A; vm_compute; reflexivity | exact B ].
Defined.

(** C6 as stated fails: the words of 1234 have [cent], not [cents], and
    the group 200 is [deux cent]. *)
Lemma madToWords_1234_not_cents :
  madToWords (VNumber (ofZ 1234))
  = Normal (lit "mille deux cent trente-quatre dirhams")
  /\ str_eqb (lit "mille deux cent trente-quatre dirhams")
       (lit "mille deux cents trente-quatre dirhams") = false
  /\ convertLessThanThousand (ofZ 200) = lit "deux cent".
Proof. vm_compute. repeat split. Qed.

(** C5, at an amount whose cents round to 100: the output has a cents part
    of one hundred centimes, and no dirham. *)
Theorem madToWords_cents_round_to_100 :
  cents_part (999 # 1000) = 100
  /\ madToWords (VNumber (Finite (999 # 1000)))
     = Normal (lit "cent centimes")
  /\ madToWords (VNumber (Finite (1999 # 1000)))
     = Normal (lit "un dirham et cent centimes").
Proof. vm_compute. repeat split. Qed.

(** C7 as stated fails: half a dirham is not 0, and its words have neither
    the dirham unit nor the conjunction, although its cents are not 0. *)
Lemma madToWords_half_dirham :
  madToWords (VNumber (Finite (1 # 2))) = Normal (lit "cinquante centimes")
  /\ isInfixOf (lit "dirham") (lit "cinquante centimes") = false
  /\ isInfixOf (lit "et") (lit "cinquante centimes") = false
  /\ Qeq_bool (1 # 2) 0 = false
  /\ is_double (1 # 2) = true
  /\ whole_part (1 # 2) = 0
  /\ rendered_cents (1 # 2) = 50.
Proof. vm_compute. repeat split. Qed.

Lemma whole_of_abs (q : Q) :
  Math.floor (Math.abs (Finite q)) = ofZ (whole_part q).
Proof.
  unfold Math.floor, Math.abs, whole_part. apply (f_equal ofZ).
  apply Qfloor_comp. apply Qred_correct.
Qed.

Lemma fraction_range (q : Q) :
  (0 <= Qabs q - inject_Z (whole_part q))%Q
  /\ (Qabs q - inject_Z (whole_part q) < 1)%Q.
Proof.
  unfold whole_part.
  pose proof (Qfloor_le (Qabs q)) as L. pose proof (Qlt_floor (Qabs q)) as U.
  rewrite inject_Z_plus in U. change (inject_Z 1) with 1%Q in U.
  split; lra.
Qed.

Lemma round_of_product (x' x : Q) :
  (x' == x)%Q -> (0 <= x)%Q -> (x < 1)%Q ->
  Math.round (Num.mul (Finite x') (ofZ 100))
  = ofZ (Qfloor (binary64_product x (inject_Z 100) + (1 # 2))).
Proof.
  intros E H0 H1.
  pose proof (binary64_product_error x H0 H1) as R.
  pose proof (binary64_product_nonneg x H0) as P.
  unfold Num.mul, ofZ at 1. rewrite (is_double_comp x' x E).
  unfold binary64_product in *.
  destruct (is_double x && is_double (inject_Z 100)).
  - unfold round64.
    rewrite (round64q_comp (x' * inject_Z 100) (x * inject_Z 100))
      by (rewrite E; reflexivity).
    set (r := round64q (x * inject_Z 100)) in *.
    assert (O : Qle_bool (pow2 1024) (Qabs r) = false).
    { destruct (Qle_bool _ _) eqn:C; [ | reflexivity ].
      apply Qle_bool_iff in C. rewrite (Qabs_pos _ P) in C.
      pose proof (pow2_le 7 1024 ltac:(lia)) as M. rewrite pow2_7 in M.
      apply Qabs_Qle_condition in R.
      change (inject_Z 100) with 100%Q in R. exfalso. lra. }
    rewrite O. unfold Math.round. f_equal. apply Qfloor_comp.
    rewrite Qred_correct. reflexivity.
  - unfold Math.round. f_equal. apply Qfloor_comp.
    rewrite Qred_correct, E. reflexivity.
Qed.

Lemma cents_of_abs (q : Q) :
  Math.round
    (Num.mul (Num.sub (Math.abs (Finite q)) (ofZ (whole_part q))) (ofZ 100))
  = ofZ (rendered_cents q).
Proof.
  destruct (fraction_range q) as [ H0 H1 ].
  unfold Math.abs, Num.sub, Num.neg, Num.add. unfold ofZ at 1.
  unfold rendered_cents. apply round_of_product; [ | exact H0 | exact H1 ].
  rewrite !Qred_correct. reflexivity.
Qed.

Lemma whole_part_nonneg (q : Q) : 0 <= whole_part q.
Proof.
  unfold whole_part. change 0 with (Qfloor 0).
  apply Qfloor_resp_le. apply Qabs_nonneg.
Qed.

(** The cents are between 0 and 100, and the whole part and the cents are
    within half a cent of the amount. *)
Lemma cents_part_range (q : Q) :
  0 <= cents_part q <= 100
  /\ (Qabs (Qabs q * inject_Z 100
            - inject_Z (100 * whole_part q + cents_part q)) <= 1 # 2)%Q.
Proof.
  unfold cents_part, whole_part.
  set (w := Qfloor (Qabs q)).
  set (y := ((Qabs q - inject_Z w) * inject_Z 100 + (1 # 2))%Q).
  pose proof (Qfloor_le (Qabs q)) as L. fold w in L.
  pose proof (Qlt_floor (Qabs q)) as U. fold w in U.
  rewrite inject_Z_plus in U. change (inject_Z 1) with 1%Q in U.
  pose proof (Qfloor_le y) as Ly. pose proof (Qlt_floor y) as Uy.
  rewrite inject_Z_plus in Uy. change (inject_Z 1) with 1%Q in Uy.
  remember (Qfloor y) as c eqn:Ec. clear Ec.
  unfold y in Ly, Uy. clear y.
  change (inject_Z 100) with 100%Q in *.
  split.
  - assert (H1 : (inject_Z (-1) < inject_Z c)%Q).
    { change (inject_Z (-1)) with (-1 # 1)%Q. lra. }
    assert (H2 : (inject_Z c < inject_Z 101)%Q).
    { change (inject_Z 101) with 101%Q. lra. }
    rewrite <- Zlt_Qlt in H1, H2. lia.
  - rewrite inject_Z_plus, inject_Z_mult. change (inject_Z 100) with 100%Q.
    apply Qabs_Qle_condition. split; lra.
Qed.

(** The cents the converter renders are between 0 and 100, and the whole
    part and the cents are within half a centime of the amount, up to the
    rounding of the product, 2^-47. *)
Lemma rendered_cents_range (q : Q) :
  0 <= rendered_cents q <= 100
  /\ (Qabs (Qabs q * inject_Z 100
            - inject_Z (100 * whole_part q + rendered_cents q))
      <= (1 # 2) + (1 # 140737488355328))%Q.
Proof.
  destruct (fraction_range q) as [ H0 H1 ].
  pose proof (binary64_product_error _ H0 H1) as R.
  unfold rendered_cents.
  set (w := whole_part q) in *.
  set (p := binary64_product (Qabs q - inject_Z w) (inject_Z 100)) in *.
  apply Qabs_Qle_condition in R.
  pose proof (Qfloor_le (p + (1 # 2))) as Ly.
  pose proof (Qlt_floor (p + (1 # 2))) as Uy.
  rewrite inject_Z_plus in Uy. change (inject_Z 1) with 1%Q in Uy.
  remember (Qfloor (p + (1 # 2))) as c eqn:Ec. clear Ec.
  change (inject_Z 100) with 100%Q in *.
  split.
  - assert (A1 : (inject_Z (-1) < inject_Z c)%Q).
    { change (inject_Z (-1)) with (-1 # 1)%Q. lra. }
    assert (A2 : (inject_Z c < inject_Z 101)%Q).
    { change (inject_Z 101) with 101%Q. lra. }
    rewrite <- Zlt_Qlt in A1, A2. lia.
  - rewrite inject_Z_plus, inject_Z_mult. change (inject_Z 100) with 100%Q.
    apply Qabs_Qle_condition. split; lra.
Qed.

Lemma madToWords_finite (q : Q) :
  ~ (q == 0)%Q ->
  madToWords (VNumber (Finite q))
  = Normal
      (sign_word q
       ++ trim (dirham_segment (whole_part q)
                ++ conjunction_segment (whole_part q) (rendered_cents q)
                ++ cents_segment (rendered_cents q))).
Proof.
  intros N.
  unfold madToWords, try_catch, madToWords_try, throw_if, bind.
  cbn [typeof JSType_eqb negb orb as_number Num.isNaN].
  assert (Z0 : Num.strict_eq (Finite q) (ofZ 0) = false).
  { unfold Num.strict_eq, ofZ. destruct (Qeq_bool q (inject_Z 0)) eqn:E;
      [ | reflexivity ].
    apply Qeq_bool_eq in E. contradiction. }
  rewrite Z0. cbv zeta.
  rewrite !whole_of_abs, !cents_of_abs.
  pose proof (whole_part_nonneg q) as W.
  rewrite !rem_ofZ_nonneg by exact W.
  rewrite !div_ofZ_floor, !gt_ofZ, !strict_eq_ofZ.
  unfold sign_word, dirham_segment, conjunction_segment, cents_segment,
    whole_words, group_words. cbv zeta.
  change (Num.lt (Finite q) (ofZ 0)) with (Qlt_bool q 0).
  f_equal. f_equal. f_equal.
  generalize (convertLessThanThousand (ofZ (whole_part q / 1000000))).
  generalize (convertLessThanThousand
                (ofZ (whole_part q mod 1000000 / 1000))).
  generalize (convertLessThanThousand (ofZ (whole_part q mod 1000))).
  generalize (convertLessThanThousand (ofZ (rendered_cents q))).
  intros g1 g2 g3 g4.
  destruct (0 <? whole_part q); destruct (0 <? rendered_cents q);
    destruct (0 <? whole_part q / 1000000);
    destruct (0 <? whole_part q mod 1000000 / 1000);
    destruct (0 <? whole_part q mod 1000);
    destruct (whole_part q =? 1); destruct (rendered_cents q =? 1);
    cbn [andb negb app];
    rewrite ?app_nil_r, <- ?app_assoc; reflexivity.
Qed.

Lemma madToWords_zero (q : Q) :
  (q == 0)%Q -> madToWords (VNumber (Finite q)) = Normal zero_dirhams.
Proof.
  intros E.
  unfold madToWords, try_catch, madToWords_try, throw_if, bind.
  cbn [typeof JSType_eqb negb orb as_number Num.isNaN].
  assert (Z0 : Num.strict_eq (Finite q) (ofZ 0) = true).
  { unfold Num.strict_eq, ofZ. apply Qeq_bool_iff. exact E. }
  rewrite Z0. reflexivity.
Qed.

(** C7, as the code has it.  The result for a finite amount other than 0
    and below 2^53 in absolute value is the sign word ([moins ] for a
    negative amount) followed by the trimmed concatenation of the dirham
    segment, the conjunction and the cents segment, for the whole part of
    the absolute amount and the cents the converter renders: the fraction
    times 100 as the double arithmetic rounds it, then rounded to an
    integer.  The dirham segment is there exactly when the whole part is
    positive, the cents segment exactly when the cents are positive, and the
    conjunction [et] exactly when both are.  The amount 0 is [zero dirhams],
    with an acute accent. *)
Theorem madToWords_segments (q : Q) :
  ((q == 0)%Q -> madToWords (VNumber (Finite q)) = Normal zero_dirhams)
  /\ (~ (q == 0)%Q -> (Qabs q < inject_Z (2 ^ 53))%Q ->
      madToWords (VNumber (Finite q))
      = Normal
          (sign_word q
           ++ trim (dirham_segment (whole_part q)
                    ++ conjunction_segment (whole_part q) (rendered_cents q)
                    ++ cents_segment (rendered_cents q))))
  /\ (dirham_segment (whole_part q) = [] <-> whole_part q = 0)
  /\ (cents_segment (rendered_cents q) = [] <-> rendered_cents q = 0)
  /\ (conjunction_segment (whole_part q) (rendered_cents q) = []
      <-> whole_part q = 0 \/ rendered_cents q = 0).
Proof.
  pose proof (whole_part_nonneg q) as W.
  pose proof (proj1 (rendered_cents_range q)) as C.
  split; [ apply madToWords_zero | ].
  split; [ intros N _; apply madToWords_finite; exact N | ].
  split; [ | split ].
  - unfold dirham_segment.
    destruct (Z.ltb_spec 0 (whole_part q)) as [ H | H ].
    + split; [ | lia ]. intros E. apply app_eq_nil in E.
      destruct E as [ _ E ]. discriminate E.
    + split; [ lia | reflexivity ].
  - unfold cents_segment.
    destruct (Z.ltb_spec 0 (rendered_cents q)) as [ H | H ].
    + split; [ | lia ]. intros E. apply app_eq_nil in E.
      destruct E as [ _ E ]. discriminate E.
    + split; [ lia | reflexivity ].
  - unfold conjunction_segment.
    destruct (Z.ltb_spec 0 (whole_part q)) as [ H | H ];
      destruct (Z.ltb_spec 0 (rendered_cents q)) as [ H' | H' ]; simpl;
      split; try discriminate; try reflexivity; try lia.
Qed.

Lemma madToWords_segments_witness :
  madToWords (VNumber (Finite double_0_015))
  = Normal
      (sign_word double_0_015
       ++ trim (dirham_segment (whole_part double_0_015)
                ++ conjunction_segment (whole_part double_0_015)
                     (rendered_cents double_0_015)
                ++ cents_segment (rendered_cents double_0_015)))
  /\ whole_part double_0_015 = 0
  /\ rendered_cents double_0_015 = 2.
Proof.
  split; [ | split; vm_compute; reflexivity ].
  apply (proj1 (proj2 (madToWords_segments double_0_015))).
  - intros E. discriminate E.
  - reflexivity.
Defined.

(** The cents at the doubles 0.015 and 0.995: the products are the doubles
    1.5 and 99.5, although 0.015 is below 15/1000 and 0.995 below 995/1000.
    At the double 0.999 the cents are 100, as at 999/1000. *)
Example madToWords_rounds_the_product :
  is_double double_0_015 = true
  /\ Qlt_bool double_0_015 (15 # 1000) = true
  /\ rendered_cents double_0_015 = 2
  /\ madToWords (VNumber (Finite double_0_015)) = Normal (lit "deux centimes")
  /\ is_double double_0_995 = true
  /\ Qlt_bool double_0_995 (995 # 1000) = true
  /\ rendered_cents double_0_995 = 100
  /\ madToWords (VNumber (Finite double_0_995)) = Normal (lit "cent centimes")
  /\ is_double double_0_999 = true
  /\ madToWords (VNumber (Finite double_0_999)) = Normal (lit "cent centimes").
Proof. vm_compute. repeat split. Qed.

Example madToWords_examples :
  madToWords (VNumber (Finite (- 4567 # 100)))
  = Normal (lit "moins quarante-cinq dirhams et soixante-sept centimes")
  /\ madToWords (VNumber (ofZ 1)) = Normal (lit "un dirham")
  /\ madToWords (VNumber (ofZ 2000000)) = Normal (lit "deux millions  dirhams")
  /\ madToWords (VNumber (Infinity false))
     = Normal (lit "undefined cent millions  dirhams").
Proof. vm_compute. repeat split. Qed.

(** * Further properties *)

(** ** [isValidRIB], every check *)

Lemma isValidRIB_string (banks : list BankDetails) (rib : jsstring) :
  isValidRIB banks (VString rib)
  = Normal
      (let clean := normalizeRIB rib in
       match find_bank banks (firstn 3 clean) with
       | None => false
       | Some bank =>
           (Z.of_nat (length clean) =? ribLength bank)
           && ribRegex bank clean && rib_key_test clean
       end).
Proof.
  cbv zeta. set (clean := normalizeRIB rib).
  set (code3 := firstn 3 clean).
  unfold isValidRIB, isValidRIB_try.
  cbn [call_replace string_receiver bind].
  fold (normalizeRIB rib). fold clean.
  rewrite substring_prefix3. fold code3.
  destruct (find_bank banks code3) as [ bank | ]; [ | reflexivity ].
  unfold throw_if.
  destruct (Z.of_nat (length clean) =? ribLength bank); [ | reflexivity ].
  destruct (ribRegex bank clean); [ | reflexivity ].
  cbn [negb andb]. fold rib_code_step.
  fold (rib_code_remainder clean). fold (rib_key_test clean).
  destruct (rib_key_test clean); reflexivity.
Qed.

Lemma rib_key_test_spec (clean : jsstring) :
  clean_string clean -> rib_key_test clean = true <-> rib_key_matches clean.
Proof.
  intros C. unfold rib_key_test. rewrite slice_key.
  destruct (rib_code_remainder_spec clean C) as [ E B ].
  rewrite E. unfold rib_key_matches, rib_expected_key, parse_base10.
  destruct (rib_fold (rib_chunks (rib_payload clean)) 0) as [ r | ].
  - specialize (B r eq_refl). cbn [number_of_result option_map].
    rewrite sub_ofZ, rem_ofZ_nonneg by lia.
    destruct (parseInt_integer (rib_key_chars clean)) as [ K | (k & K) ];
      rewrite K.
    + simpl. split; [ discriminate | ].
      intros (key & _ & H). discriminate H.
    + rewrite strict_eq_ofZ, integer_of_ofZ. rewrite Z.eqb_eq. split.
      * intros Q. exists k. rewrite Q. auto.
      * intros (key & H1 & H2). congruence.
  - simpl. split; [ discriminate | ].
    intros (key & H & _). discriminate H.
Qed.

Lemma isValidRIB_true_first (banks : list BankDetails) (rib : jsstring) :
  isValidRIB banks (VString rib) = Normal true
  <-> exists bank,
        find_bank banks (firstn 3 (normalizeRIB rib)) = Some bank
        /\ Z.of_nat (length (normalizeRIB rib)) = ribLength bank
        /\ ribRegex bank (normalizeRIB rib) = true
        /\ rib_key_matches (normalizeRIB rib).
Proof.
  rewrite isValidRIB_string. cbv zeta.
  pose proof (rib_key_test_spec _ (normalizeRIB_clean rib)) as K.
  destruct (find_bank banks (firstn 3 (normalizeRIB rib))) as [ bank | ].
  - split.
    + intros H. injection H as H.
      apply andb_true_iff in H. destruct H as [ H H3 ].
      apply andb_true_iff in H. destruct H as [ H1 H2 ].
      exists bank. repeat split; auto.
      * apply Z.eqb_eq. exact H1.
      * apply K. exact H3.
    + intros (b & E & L & R & M). injection E as <-.
      rewrite L, Z.eqb_refl, R, (proj2 K M). reflexivity.
  - split; [ discriminate | ]. intros (b & E & _). discriminate E.
Qed.

(** X1.  On a string, [isValidRIB] returns [true] exactly when the input,
    white space and hyphens stripped, starts with the code of an active bank
    of the registry, has the length of a RIB of that bank, matches its
    [ribRegex] and ends with the key its payload gives; it returns [false] in
    every other case.  Bank codes are unique within the registry. *)
Theorem isValidRIB_iff_conditions (banks : list BankDetails) (rib : jsstring) :
  unique_codes banks ->
  (isValidRIB banks (VString rib) = Normal true
   <-> RIB_conditions banks (normalizeRIB rib))
  /\ (isValidRIB banks (VString rib) = Normal false
      <-> ~ RIB_conditions banks (normalizeRIB rib)).
Proof.
  intros U.
  assert (T : isValidRIB banks (VString rib) = Normal true
              <-> RIB_conditions banks (normalizeRIB rib)).
  { rewrite isValidRIB_true_first. unfold RIB_conditions.
    split.
    - intros (b & F & L & R & M). apply find_bank_some in F.
      destruct F as (I & C & A). exists b. auto 10.
    - intros (b & I & A & C & L & R & M). exists b.
      split; [ apply find_bank_unique; auto | auto ]. }
  split; [ exact T | ].
  rewrite isValidRIB_string in *. cbv zeta in *.
  match goal with |- Normal ?b = _ <-> _ => destruct b end; split.
  - discriminate.
  - intros N. exfalso. apply N. apply T. reflexivity.
  - intros _ C. apply T in C. discriminate.
  - reflexivity.
Qed.

Lemma isValidRIB_iff_conditions_witness :
  unique_codes sample_banks
  /\ RIB_conditions sample_banks
       (normalizeRIB (lit "007 780-0001234567890123-18")).
Proof.
  assert (U : unique_codes sample_banks).
  { unfold unique_codes, sample_banks. simpl.
    repeat constructor; simpl; intuition discriminate. }
  split; [ exact U | ].
  apply (proj1 (isValidRIB_iff_conditions sample_banks
                  (lit "007 780-0001234567890123-18") U)).
  vm_compute. reflexivity.
Defined.

Lemma isValidRIB_string_boolean (banks : list BankDetails) (rib : jsstring) :
  isValidRIB banks (VString rib) = Normal true
  \/ isValidRIB banks (VString rib) = Normal false.
Proof.
  rewrite isValidRIB_string. cbv zeta.
  match goal with |- Normal ?b = _ \/ _ => destruct b end; auto.
Qed.

(** X2.  The payload decides the key: when [isValidRIB] accepts an input,
    it rejects every input with the same payload whose last two characters
    parse to another number, or to none. *)
Theorem isValidRIB_payload_decides_key (banks : list BankDetails)
  (rib1 rib2 : jsstring) :
  isValidRIB banks (VString rib1) = Normal true ->
  rib_payload (normalizeRIB rib2) = rib_payload (normalizeRIB rib1) ->
  parse_base10 (rib_key_chars (normalizeRIB rib2))
  <> parse_base10 (rib_key_chars (normalizeRIB rib1)) ->
  isValidRIB banks (VString rib2) = Normal false.
Proof.
  intros V1 P N.
  destruct (isValidRIB_string_boolean banks rib2) as [ V2 | V2 ];
    [ exfalso | exact V2 ].
  apply isValidRIB_true_first in V1. apply isValidRIB_true_first in V2.
  destruct V1 as (_ & _ & _ & _ & k1 & E1 & K1).
  destruct V2 as (_ & _ & _ & _ & k2 & E2 & K2).
  unfold rib_expected_key in E1, E2. rewrite P in E2.
  apply N. rewrite K1, K2. congruence.
Qed.

Lemma isValidRIB_payload_decides_key_witness :
  isValidRIB sample_banks (VString (lit "007 780-0001234567890123-81"))
  = Normal false.
Proof.
  apply (isValidRIB_payload_decides_key sample_banks
           (lit "007 780-0001234567890123-18")).
  - vm_compute. reflexivity.
  - vm_compute. reflexivity.
  - vm_compute. intros H. discriminate H.
Defined.

(** ** The number the RIB fold reduces *)

Lemma digitCount_small (n : Z) : 0 <= n < 10 -> digitCount n = 1%nat.
Proof.
  intros H. apply (is_digit_count_unique n).
  - apply digitCount_spec. lia.
  - unfold is_digit_count. simpl. lia.
Qed.

Lemma digitCount_step (n : Z) :
  10 <= n -> digitCount n = S (digitCount (n / 10)).
Proof.
  intros H. apply (is_digit_count_unique n).
  - apply digitCount_spec. lia.
  - assert (D : 0 <= n / 10) by (apply Z.div_pos; lia).
    destruct (digitCount_spec (n / 10) D) as (A & B & C).
    pose proof (Z.div_mod n 10 ltac:(lia)) as E.
    pose proof (Z.mod_pos_bound n 10 ltac:(lia)) as M.
    set (k := digitCount (n / 10)) in *.
    unfold is_digit_count. split; [ lia | ].
    rewrite Nat2Z.inj_succ, Z.pow_succ_r by lia.
    split; [ lia | ]. right.
    replace (Z.succ (Z.of_nat k) - 1) with (Z.of_nat k) by lia.
    destruct C as [ C | C ]; [ rewrite C; simpl; lia | ].
    replace (Z.of_nat k) with (Z.succ (Z.of_nat k - 1)) by lia.
    rewrite Z.pow_succ_r by lia. lia.
Qed.

Lemma digits_loop_value (fuel : nat) (n : Z) (acc : jsstring) (a : Z) :
  (1 <= fuel)%nat -> 0 <= n < 2 ^ Z.of_nat fuel ->
  fold_left (fun a d => a * 10 + (d - 48)) (digits_loop fuel n acc) a
  = fold_left (fun a d => a * 10 + (d - 48)) acc
      (a * 10 ^ Z.of_nat (digitCount n) + n).
Proof.
  revert n acc a. induction fuel as [ | fuel IH ]; intros n acc a F [ N0 N1 ];
    [ lia | ].
  cbn [digits_loop]. destruct (Z.ltb_spec n 10) as [ H | H ].
  - rewrite digitCount_small by lia. cbn [fold_left].
    rewrite Z.mod_small by lia. f_equal.
    change (10 ^ Z.of_nat 1) with 10. lia.
  - rewrite Nat2Z.inj_succ, Z.pow_succ_r in N1 by lia.
    assert (F' : (1 <= fuel)%nat).
    { destruct fuel; [ simpl in N1; lia | lia ]. }
    assert (D : 0 <= n / 10 < 2 ^ Z.of_nat fuel).
    { split; [ apply Z.div_pos; lia | ].
      apply Z.div_lt_upper_bound; lia. }
    rewrite (IH (n / 10) _ a F' D). cbn [fold_left]. f_equal.
    rewrite (digitCount_step n H).
    rewrite Nat2Z.inj_succ, Z.pow_succ_r by lia.
    pose proof (Z.div_mod n 10 ltac:(lia)) as E.
    set (p := 10 ^ Z.of_nat (digitCount (n / 10))).
    rewrite E at 3. ring.
Qed.

Lemma digits_value (v a : Z) (rest : jsstring) :
  0 <= v ->
  fold_left (fun a d => a * 10 + (d - 48)) (digits v ++ rest) a
  = fold_left (fun a d => a * 10 + (d - 48)) rest
      (a * 10 ^ Z.of_nat (digitCount v) + v).
Proof.
  intros H. rewrite fold_left_app. f_equal. unfold digits.
  rewrite digits_loop_value.
  - reflexivity.
  - lia.
  - split; [ exact H | ].
    pose proof (Z.log2_nonneg v) as P.
    replace (Z.of_nat (S (Z.to_nat (Z.log2 v)))) with (Z.succ (Z.log2 v))
      by lia.
    destruct (Z.eq_dec v 0) as [ -> | N ]; [ reflexivity | ].
    apply Z.log2_spec. lia.
Qed.

Lemma printed_chunks_value (values : list Z) (a : Z) :
  Forall (fun v => 0 <= v) values ->
  fold_left (fun a d => a * 10 + (d - 48)) (printed_chunks values) a
  = fold_left (fun a v => a * 10 ^ Z.of_nat (digitCount v) + v) values a.
Proof.
  intros F. revert a. induction F as [ | v values Hv F IH ]; intros a.
  - reflexivity.
  - unfold printed_chunks. cbn [map concat fold_left].
    rewrite (digits_value v a _ Hv). apply IH.
Qed.

Lemma rib_step_fold_mod (values : list Z) (a : Z) :
  fold_left rib_step values (a mod 97)
  = fold_left (fun a v => a * 10 ^ Z.of_nat (digitCount v) + v) values a
    mod 97.
Proof.
  revert a. induction values as [ | v values IH ]; intros a;
    [ reflexivity | ].
  cbn [fold_left]. rewrite <- IH. f_equal. unfold rib_step.
  rewrite Z.add_mod by lia. rewrite Z.mul_mod_idemp_l by lia.
  rewrite <- Z.add_mod by lia. reflexivity.
Qed.

Lemma rib_fold_values (chunks : list jsstring) (values : list Z) (r : Z) :
  chunk_values chunks values ->
  rib_fold chunks r = Some (fold_left rib_step values r).
Proof.
  intros F. revert r. induction F as [ | c v chunks values [ P _ ] F IH ];
    intros r; [ reflexivity | ].
  cbn [rib_fold fold_left]. rewrite P. apply IH.
Qed.

(** X3.  The remainder [isValidRIB] folds is the remainder modulo 97 of the
    number written by the integers of the chunks one after the other, each
    in decimal without its leading zeros; the key expected is 97 minus it,
    modulo 97. *)
Theorem rib_remainder_of_printed_chunks (clean : jsstring) (values : list Z) :
  clean_string clean ->
  chunk_values (rib_chunks (rib_payload clean)) values ->
  rib_code_remainder clean
  = ofZ (decimal_value (printed_chunks values) mod 97)
  /\ rib_expected_key clean
     = Some ((97 - decimal_value (printed_chunks values) mod 97) mod 97).
Proof.
  intros C V.
  assert (N : Forall (fun v => 0 <= v) values).
  { clear C. induction V as [ | c v cs vs [ _ H ] V IH ]; constructor; auto. }
  assert (E : rib_fold (rib_chunks (rib_payload clean)) 0
              = Some (decimal_value (printed_chunks values) mod 97)).
  { rewrite (rib_fold_values _ _ 0 V). f_equal.
    change 0 with (0 mod 97) at 1. rewrite rib_step_fold_mod.
    unfold decimal_value. rewrite (printed_chunks_value values 0 N).
    reflexivity. }
  split.
  - destruct (rib_code_remainder_spec clean C) as [ R _ ].
    rewrite R, E. reflexivity.
  - unfold rib_expected_key. rewrite E. reflexivity.
Qed.

Lemma rib_remainder_of_printed_chunks_witness :
  printed_chunks [77800; 12345; 6789012; 3] = lit "778001234567890123"
  /\ rib_code_remainder (lit "007780000123456789012318")
     = ofZ (778001234567890123 mod 97)
  /\ rib_expected_key (lit "007780000123456789012318") = Some 18.
Proof.
  split; [ vm_compute; reflexivity | ].
  destruct (rib_remainder_of_printed_chunks
              (lit "007780000123456789012318") [77800; 12345; 6789012; 3])
    as [ A B ].
  - apply (normalizeRIB_clean (lit "007780000123456789012318")).
  - unfold chunk_values.
    change (rib_chunks (rib_payload (lit "007780000123456789012318")))
      with [lit "0077800"; lit "0012345"; lit "6789012"; lit "3"].
    repeat constructor; try (vm_compute; reflexivity);
      intros H; discriminate H.
  - split; [ rewrite A; vm_compute; reflexivity | ].
    rewrite B. vm_compute. reflexivity.
Defined.

(** X4.  Unlike the IBAN test, the RIB test does not catch every change of
    one digit: with a bank [007] of RIB length 24 whose pattern accepts the
    two strings, [isValidRIB] accepts a RIB and the same RIB with its eighth
    digit replaced by [0]; the replacement removes the leading digit of the
    second chunk, and with it a factor 10 of the multiplier. *)
Theorem isValidRIB_misses_a_digit (banks : list BankDetails)
  (bank : BankDetails) :
  find_bank banks (lit "007") = Some bank ->
  ribLength bank = 24 ->
  ribRegex bank (lit "007978690736625851781295") = true ->
  ribRegex bank (set_nth 7 48 (lit "007978690736625851781295")) = true ->
  isValidRIB banks (VString (lit "007978690736625851781295")) = Normal true
  /\ isValidRIB banks
       (VString (set_nth 7 48 (lit "007978690736625851781295")))
     = Normal true
  /\ nth 7 (lit "007978690736625851781295") 0 = 57.
Proof.
  intros F L R1 R2. split; [ | split; [ | reflexivity ] ].
  - apply isValidRIB_true_first. exists bank.
    change (normalizeRIB (lit "007978690736625851781295"))
      with (lit "007978690736625851781295").
    repeat split; auto.
    exists 95. split; vm_compute; reflexivity.
  - apply isValidRIB_true_first. exists bank.
    change (normalizeRIB (set_nth 7 48 (lit "007978690736625851781295")))
      with (set_nth 7 48 (lit "007978690736625851781295")).
    repeat split; auto.
    exists 95. split; vm_compute; reflexivity.
Qed.

Lemma isValidRIB_misses_a_digit_witness :
  isValidRIB sample_banks (VString (lit "007978690736625851781295"))
  = Normal true
  /\ isValidRIB sample_banks (VString (lit "007978600736625851781295"))
     = Normal true.
Proof.
  destruct (isValidRIB_misses_a_digit sample_banks sample_bank)
    as (A & B & _); try (vm_compute; reflexivity).
  split; [ exact A | exact B ].
Defined.

(** ** [getBankDetails] *)

Lemma substring_4_7 (s : jsstring) : substring s 4 7 = firstn 3 (skipn 4 s).
Proof.
  unfold substring, clamp.
  destruct (Nat.le_gt_cases 7 (length s)) as [ L | L ].
  - replace (Z.to_nat _) with 3%nat by lia.
    replace (Z.to_nat _) with 4%nat by lia. reflexivity.
  - destruct (Nat.le_gt_cases 4 (length s)) as [ L4 | L4 ].
    + replace (Z.to_nat (Z.min _ _)) with 4%nat by lia.
      replace (Z.to_nat _) with (length s - 4)%nat by lia.
      rewrite firstn_all2 by (rewrite length_skipn; lia).
      symmetry. apply firstn_all2. rewrite length_skipn. lia.
    + replace (Z.to_nat (Z.min _ _)) with (length s) by lia.
      replace (Z.to_nat _) with 0%nat by lia.
      rewrite skipn_all. rewrite skipn_all2 by lia. reflexivity.
Qed.

Lemma getBankDetails_lookup (banks : list BankDetails) (s : jsstring) :
  getBankDetails banks (VString s)
  = Normal (find_bank banks (bank_code_of_argument (normalizeRIB s))).
Proof.
  rewrite getBankDetails_string. cbv zeta. unfold bank_code_of_argument.
  rewrite substring_4_7, substring_prefix3. reflexivity.
Qed.

(** X5.  [getBankDetails] on a string.  A bank it returns is a bank of the
    registry that is active and whose code is the code in the argument: the
    characters 4 to 6 of the argument, white space and hyphens stripped, when
    that starts with [MA], its first three characters otherwise.  The result
    is absent exactly when the registry has no active bank with that code;
    an inactive bank is never returned.  When bank codes are unique, every
    active bank is the result for its code. *)
Theorem getBankDetails_resolution (banks : list BankDetails) (s : jsstring) :
  (forall b, getBankDetails banks (VString s) = Normal (Some b) ->
             active_bank banks (bank_code_of_argument (normalizeRIB s)) b)
  /\ (getBankDetails banks (VString s) = Normal None
      <-> forall b,
            ~ active_bank banks (bank_code_of_argument (normalizeRIB s)) b)
  /\ (unique_codes banks ->
      forall b, active_bank banks (bank_code_of_argument (normalizeRIB s)) b ->
                getBankDetails banks (VString s) = Normal (Some b)).
Proof.
  rewrite getBankDetails_lookup.
  set (c := bank_code_of_argument (normalizeRIB s)).
  split; [ | split ].
  - intros b H. injection H as H. apply find_bank_some in H.
    unfold active_bank. tauto.
  - split.
    + intros H b (I & A & C). injection H as H. unfold find_bank in H.
      pose proof (find_none _ _ H b I) as N. simpl in N.
      rewrite A, (proj2 (str_eqb_eq _ _) C) in N. discriminate N.
    + intros H. destruct (find_bank banks c) as [ b | ] eqn:F;
        [ | reflexivity ].
      apply find_bank_some in F. exfalso. apply (H b).
      unfold active_bank. tauto.
  - intros U b (I & A & C). f_equal. apply find_bank_unique; assumption.
Qed.

(** X6.  White space and hyphens in the argument do not matter to
    [isValidRIB], [getBankDetails] and [getSwiftCode]: two strings that are
    equal once they are stripped get the same result. *)
Theorem stripped_argument_decides (banks : list BankDetails)
  (s1 s2 : jsstring) (branch : JSValue) :
  normalizeRIB s1 = normalizeRIB s2 ->
  isValidRIB banks (VString s1) = isValidRIB banks (VString s2)
  /\ getBankDetails banks (VString s1) = getBankDetails banks (VString s2)
  /\ getSwiftCode banks (VString s1) branch
     = getSwiftCode banks (VString s2) branch.
Proof.
  intros E.
  assert (G : getBankDetails banks (VString s1)
              = getBankDetails banks (VString s2)).
  { rewrite !getBankDetails_lookup, E. reflexivity. }
  split; [ | split ].
  - rewrite !isValidRIB_string. cbv zeta. rewrite E. reflexivity.
  - exact G.
  - unfold getSwiftCode, getSwiftCode_try. rewrite G. reflexivity.
Qed.

Lemma stripped_argument_decides_witness :
  isValidRIB sample_banks (VString (lit "007 780-0001234567890123-18"))
  = isValidRIB sample_banks (VString (lit "007780000123456789012318"))
  /\ getBankDetails sample_banks (VString (lit "007 780-0001234567890123-18"))
     = getBankDetails sample_banks (VString (lit "007780000123456789012318")).
Proof.
  destruct (stripped_argument_decides sample_banks
              (lit "007 780-0001234567890123-18")
              (lit "007780000123456789012318") VUndefined)
    as (A & B & _).
  - vm_compute. reflexivity.
  - split; [ exact A | exact B ].
Defined.

(** X7.  White space and letter case do not matter to [isValidIBAN]: two
    strings with the same normalised form get the same result, and the
    result for a string is the result for its normalised form. *)
Theorem normalized_iban_decides (banks : list BankDetails)
  (toUpperCase : jsstring -> jsstring) (s1 s2 : jsstring) :
  idempotent_case toUpperCase -> keeps_no_white_space toUpperCase ->
  normalizeIBAN toUpperCase s1 = normalizeIBAN toUpperCase s2 ->
  isValidIBAN banks toUpperCase (VString s1)
  = isValidIBAN banks toUpperCase (VString s2)
  /\ isValidIBAN banks toUpperCase (VString (normalizeIBAN toUpperCase s1))
     = isValidIBAN banks toUpperCase (VString s1).
Proof.
  intros I K E. rewrite !isValidIBAN_string. cbv zeta. split.
  - rewrite E. reflexivity.
  - assert (N : normalizeIBAN toUpperCase (normalizeIBAN toUpperCase s1)
                = normalizeIBAN toUpperCase s1).
    { unfold normalizeIBAN.
      rewrite (replace_all_fixed (toUpperCase (replace_all isWhiteSpace s1))).
      - apply I.
      - apply K. apply replace_all_no_white_space. }
    rewrite N. reflexivity.
Qed.

Lemma normalized_iban_decides_witness :
  isValidIBAN sample_banks upperBasicLatin
    (VString (lit "ma98 0070 0000 0000 0000 0000 0001"))
  = isValidIBAN sample_banks upperBasicLatin
      (VString (lit "MA98007000000000000000000001")).
Proof.
  apply (normalized_iban_decides sample_banks upperBasicLatin
           (lit "ma98 0070 0000 0000 0000 0000 0001")
           (lit "MA98007000000000000000000001")).
  - exact upperBasicLatin_idempotent.
  - exact upperBasicLatin_keeps_no_white_space.
  - vm_compute. reflexivity.
Defined.

(** ** The validators and the resolvers together *)

Lemma replace_all_hyphen (s : jsstring) :
  normalizeRIB s
  = replace_all (fun c => c =? 45) (replace_all isWhiteSpace s).
Proof.
  unfold normalizeRIB, replace_all, isWhiteSpaceOrHyphen.
  induction s as [ | c s IH ]; [ reflexivity | ].
  cbn [filter]. destruct (isWhiteSpace c); cbn [orb negb filter].
  - exact IH.
  - destruct (c =? 45); cbn [negb]; [ exact IH | f_equal; exact IH ].
Qed.

Lemma MA_26_digits_no_hyphen (c : jsstring) :
  MA_26_digits c -> replace_all (fun c => c =? 45) c = c.
Proof.
  intros (ds & -> & _ & D). unfold replace_all.
  apply forallb_filter_id. apply forallb_forall. intros x [ <- | [ <- | H ] ].
  - reflexivity.
  - reflexivity.
  - rewrite Forall_forall in D. specialize (D x H).
    unfold isDecimalDigit in D. apply negb_true_iff. lia.
Qed.

Lemma MA_26_digits_startsWith (c : jsstring) :
  MA_26_digits c -> startsWith c (lit "MA") = true.
Proof. intros (ds & -> & _). reflexivity. Qed.

(** X8.  An IBAN that [isValidIBAN] accepts and that is written in upper
    case is resolved by [getBankDetails], to an active bank of the registry
    whose code is in the IBAN and whose [ibanRegex] matches it; and
    [getSwiftCode] without a branch returns the SWIFT code of that bank. *)
Theorem accepted_iban_is_resolved (banks : list BankDetails)
  (toUpperCase : jsstring -> jsstring) (s : jsstring) :
  isValidIBAN banks toUpperCase (VString s) = Normal true ->
  normalizeIBAN toUpperCase s = replace_all isWhiteSpace s ->
  exists bank,
    getBankDetails banks (VString s) = Normal (Some bank)
    /\ active_bank banks (bank_code_of_iban (normalizeIBAN toUpperCase s)) bank
    /\ ibanRegex bank (normalizeIBAN toUpperCase s) = true
    /\ getSwiftCode banks (VString s) VUndefined = Normal (Some (swift bank)).
Proof.
  intros V W. apply isValidIBAN_true_iff in V. cbv zeta in V.
  destruct V as (M & (b & F & P) & _).
  assert (G : getBankDetails banks (VString s) = Normal (Some b)).
  { rewrite getBankDetails_lookup, replace_all_hyphen, <- W.
    rewrite (MA_26_digits_no_hyphen _ M). unfold bank_code_of_argument.
    rewrite (MA_26_digits_startsWith _ M), <- substring_4_7.
    destruct (MA_26_digits_shape _ M) as (E & _). rewrite E, F.
    reflexivity. }
  exists b. split; [ exact G | ]. split; [ | split; [ exact P | ] ].
  - apply find_bank_some in F. unfold active_bank. tauto.
  - rewrite (getSwiftCode_resolved _ _ _ _ G). reflexivity.
Qed.

Lemma accepted_iban_is_resolved_witness :
  exists bank,
    getBankDetails sample_banks
      (VString (lit "MA98 0070 0000 0000 0000 0000 0001"))
    = Normal (Some bank)
    /\ swift bank = lit "BCMAMAMC".
Proof.
  destruct (accepted_iban_is_resolved sample_banks upperBasicLatin
              (lit "MA98 0070 0000 0000 0000 0000 0001"))
    as (bank & G & _ & _ & S).
  - vm_compute. reflexivity.
  - vm_compute. reflexivity.
  - exists bank. split; [ exact G | ].
    assert (E : getSwiftCode sample_banks
                  (VString (lit "MA98 0070 0000 0000 0000 0000 0001"))
                  VUndefined = Normal (Some (lit "BCMAMAMC")))
      by (vm_compute; reflexivity).
    rewrite E in S. injection S as S. symmetry. exact S.
Defined.

(** The resolver looks at the case of the prefix, the validator does not: an
    accepted IBAN written in lower case is resolved to no bank. *)
Example lower_case_iban_is_not_resolved :
  isValidIBAN sample_banks upperBasicLatin
    (VString (lit "ma98 0070 0000 0000 0000 0000 0001")) = Normal true
  /\ getBankDetails sample_banks
       (VString (lit "ma98 0070 0000 0000 0000 0000 0001")) = Normal None.
Proof. vm_compute. split; reflexivity. Qed.

(** X9.  A RIB that [isValidRIB] accepts is resolved by [getBankDetails] to
    the bank whose length and pattern it was checked against, provided it
    does not start with [MA]. *)
Theorem accepted_rib_is_resolved (banks : list BankDetails) (s : jsstring) :
  isValidRIB banks (VString s) = Normal true ->
  startsWith (normalizeRIB s) (lit "MA") = false ->
  exists bank,
    getBankDetails banks (VString s) = Normal (Some bank)
    /\ active_bank banks (firstn 3 (normalizeRIB s)) bank
    /\ Z.of_nat (length (normalizeRIB s)) = ribLength bank
    /\ ribRegex bank (normalizeRIB s) = true.
Proof.
  intros V N. apply isValidRIB_true_first in V.
  destruct V as (b & F & L & R & _). exists b.
  split; [ | split; [ | split ] ]; auto.
  - rewrite getBankDetails_lookup. unfold bank_code_of_argument.
    rewrite N, F. reflexivity.
  - apply find_bank_some in F. unfold active_bank. tauto.
Qed.

Lemma accepted_rib_is_resolved_witness :
  exists bank,
    getBankDetails sample_banks (VString (lit "007 780-0001234567890123-18"))
    = Normal (Some bank)
    /\ ribLength bank = 24.
Proof.
  destruct (accepted_rib_is_resolved sample_banks
              (lit "007 780-0001234567890123-18"))
    as (bank & G & _ & L & _).
  - vm_compute. reflexivity.
  - vm_compute. reflexivity.
  - exists bank. split; [ exact G | ]. rewrite <- L. vm_compute. reflexivity.
Defined.

Lemma string_strict_eq_true (c : jsstring) (v : JSValue) :
  string_strict_eq c v = true -> v = VString c.
Proof.
  destruct v; try discriminate. simpl. intros H.
  apply str_eqb_eq in H. congruence.
Qed.

(** X10.  A SWIFT code that [getSwiftCode] returns is never made up: the
    first argument is resolved to a bank by [getBankDetails], and the code is
    the one of that bank or the one of a branch of that bank whose code is
    the second argument. *)
Theorem getSwiftCode_sound (banks : list BankDetails) (code branch : JSValue)
  (sw : jsstring) :
  getSwiftCode banks code branch = Normal (Some sw) ->
  exists bank, getBankDetails banks code = Normal (Some bank)
               /\ swift_of_bank bank branch sw.
Proof.
  intros H. destruct (getBankDetails banks code) as [ [ bank | ] | e ] eqn:G.
  - exists bank. split; [ reflexivity | ].
    rewrite (getSwiftCode_resolved _ _ _ _ G) in H. injection H as H.
    unfold swift_of_bank.
    destruct (truthy branch); [ | left; congruence ].
    destruct (branches bank) as [ bs | ] eqn:B; [ | left; congruence ].
    destruct (find _ bs) as [ b | ] eqn:F; [ | discriminate H ].
    apply find_some in F. destruct F as [ I E ].
    apply string_strict_eq_true in E. simpl in H. injection H as H.
    right. exists bs, b. auto.
  - rewrite (getSwiftCode_unresolved _ _ _ G) in H. discriminate H.
  - rewrite (getSwiftCode_escape _ _ _ _ G) in H.
    destruct (log_BankValidationException e); discriminate H.
Qed.

Lemma getSwiftCode_sound_witness :
  exists bank,
    getBankDetails sample_banks (VString (lit "007")) = Normal (Some bank)
    /\ swift_of_bank bank (VString (lit "0001")) (lit "BCMAMAMC001").
Proof.
  apply (getSwiftCode_sound sample_banks (VString (lit "007"))
           (VString (lit "0001")) (lit "BCMAMAMC001")).
  vm_compute. reflexivity.
Defined.

(** ** The check digits of an IBAN *)

Lemma iso7064_two_steps (r a b : Z) :
  iso7064_step (iso7064_step r a) b = (r * 100 + (a * 10 + b)) mod 97.
Proof.
  unfold iso7064_step.
  rewrite Z.add_mod by lia. rewrite Z.mul_mod_idemp_l by lia.
  rewrite <- Z.add_mod by lia. f_equal. ring.
Qed.

Lemma iso7064_remainder_check_digits (c : jsstring) :
  MA_26_digits c ->
  exists r,
    r = fold_left iso7064_step
          (flat_map iso7064_char (skipn 4 c) ++ [2; 2; 1; 0]) 0
    /\ iso7064_remainder c = (r * 100 + check_digits_value c) mod 97
    /\ 0 <= check_digits_value c <= 99.
Proof.
  intros (ds & -> & L & D).
  destruct ds as [ | a [ | b rest ] ]; try discriminate L.
  inversion D as [ | ? ? Ha D' ]; subst.
  inversion D' as [ | ? ? Hb _ ]; subst.
  eexists. split; [ reflexivity | ].
  unfold iso7064_remainder, iso7064_digits, check_digits_value.
  cbn [skipn firstn nth].
  rewrite flat_map_app, fold_left_app.
  change (flat_map iso7064_char [77; 65; a; b])
    with ([2; 2; 1; 0] ++ iso7064_char a ++ iso7064_char b ++ []).
  unfold iso7064_char.
  rewrite (proj2 (isDigit_spec a) Ha), (proj2 (isDigit_spec b) Hb).
  rewrite fold_left_app. cbn [app fold_left].
  rewrite iso7064_two_steps. unfold isDecimalDigit in *.
  split; [ | lia ].
  rewrite fold_left_app. reflexivity.
Qed.

(** X11.  The check digits of an accepted IBAN are decided modulo 97 by the
    rest of it: when [isValidIBAN] accepts two inputs whose normalised forms
    are equal from the character 4 on, the numbers their check digits write
    are equal or 97 apart. *)
Theorem iban_check_digits_modulo_97 (banks : list BankDetails)
  (toUpperCase : jsstring -> jsstring) (s1 s2 : jsstring) :
  isValidIBAN banks toUpperCase (VString s1) = Normal true ->
  isValidIBAN banks toUpperCase (VString s2) = Normal true ->
  skipn 4 (normalizeIBAN toUpperCase s1)
  = skipn 4 (normalizeIBAN toUpperCase s2) ->
  let k1 := check_digits_value (normalizeIBAN toUpperCase s1) in
  let k2 := check_digits_value (normalizeIBAN toUpperCase s2) in
  k1 = k2 \/ k1 = k2 + 97 \/ k2 = k1 + 97.
Proof.
  intros V1 V2 E k1 k2.
  apply isValidIBAN_true_iff in V1. apply isValidIBAN_true_iff in V2.
  cbv zeta in V1, V2.
  destruct V1 as (M1 & _ & R1). destruct V2 as (M2 & _ & R2).
  destruct (iso7064_remainder_check_digits _ M1) as (r1 & Q1 & F1 & B1).
  destruct (iso7064_remainder_check_digits _ M2) as (r2 & Q2 & F2 & B2).
  rewrite E in Q1. rewrite <- Q2 in Q1. subst r1.
  fold k1 in F1, B1. fold k2 in F2, B2.
  rewrite R1 in F1. rewrite R2 in F2.
  pose proof (Z.div_mod (r2 * 100 + k1) 97 ltac:(lia)) as D1.
  pose proof (Z.div_mod (r2 * 100 + k2) 97 ltac:(lia)) as D2.
  rewrite <- F1 in D1. rewrite <- F2 in D2. lia.
Qed.

Lemma iban_check_digits_modulo_97_witness :
  check_digits_value
    (normalizeIBAN upperBasicLatin (lit "MA98 0070 0000 0000 0000 0000 0001"))
  = 98
  /\ check_digits_value
       (normalizeIBAN upperBasicLatin
          (lit "MA01 0070 0000 0000 0000 0000 0001")) = 1
  /\ isValidIBAN sample_banks upperBasicLatin
       (VString (lit "MA01 0070 0000 0000 0000 0000 0001")) = Normal true.
Proof.
  pose proof (iban_check_digits_modulo_97 sample_banks upperBasicLatin
                (lit "MA98 0070 0000 0000 0000 0000 0001")
                (lit "MA01 0070 0000 0000 0000 0000 0001")) as T.
  assert (V : isValidIBAN sample_banks upperBasicLatin
                (VString (lit "MA01 0070 0000 0000 0000 0000 0001"))
              = Normal true) by (vm_compute; reflexivity).
  specialize (T ltac:(vm_compute; reflexivity) V
                ltac:(vm_compute; reflexivity)).
  cbv zeta in T.
  repeat split; try exact V; vm_compute; reflexivity.
Defined.

(** ** [madToWords], further *)

Lemma whole_part_opp (q : Q) : whole_part (- q) = whole_part q.
Proof.
  unfold whole_part. apply Qfloor_comp. apply Qabs_opp.
Qed.

Lemma rendered_cents_opp (q : Q) : rendered_cents (- q) = rendered_cents q.
Proof.
  unfold rendered_cents. rewrite whole_part_opp. apply Qfloor_comp.
  rewrite (binary64_product_comp (Qabs (- q) - inject_Z (whole_part q))
             (Qabs q - inject_Z (whole_part q)));
    [ reflexivity | ].
  rewrite Qabs_opp. reflexivity.
Qed.

(** X12.  The sign only adds a word: for a positive finite amount, the
    words of its opposite are [moins ] followed by its own words. *)
Theorem madToWords_opposite (q : Q) :
  (0 < q)%Q ->
  exists t, madToWords (VNumber (Finite q)) = Normal t
            /\ madToWords (VNumber (Finite (- q)))
               = Normal (lit "moins " ++ t).
Proof.
  intros H.
  assert (N1 : ~ (q == 0)%Q) by (intros E; rewrite E in H; discriminate H).
  assert (N2 : ~ (- q == 0)%Q).
  { intros E. apply N1. rewrite <- (Qopp_involutive q), E. reflexivity. }
  eexists. split.
  - rewrite (madToWords_finite q N1). unfold sign_word, Qlt_bool.
    rewrite (proj2 (Qle_bool_iff 0 q)) by (apply Qlt_le_weak; exact H).
    reflexivity.
  - rewrite (madToWords_finite (- q) N2).
    rewrite whole_part_opp, rendered_cents_opp. unfold sign_word, Qlt_bool.
    destruct (Qle_bool 0 (- q)) eqn:E; [ | reflexivity ].
    apply Qle_bool_iff in E. exfalso.
    apply (Qlt_not_le 0 q H). rewrite <- (Qopp_involutive q).
    change 0%Q with (- 0)%Q. apply Qopp_le_compat. exact E.
Qed.

Lemma madToWords_opposite_witness :
  exists t, madToWords (VNumber (Finite (4567 # 100))) = Normal t
            /\ madToWords (VNumber (Finite (- (4567 # 100))))
               = Normal (lit "moins " ++ t).
Proof.
  apply (madToWords_opposite (4567 # 100)). reflexivity.
Defined.

Lemma small_amount_parts (q : Q) :
  (Qabs q < 1 # 200)%Q -> whole_part q = 0 /\ rendered_cents q = 0.
Proof.
  intros H. pose proof (Qabs_nonneg q) as P.
  assert (W : whole_part q = 0).
  { unfold whole_part.
    pose proof (Qfloor_le (Qabs q)) as L. pose proof (Qlt_floor (Qabs q)) as U.
    rewrite inject_Z_plus in U. change (inject_Z 1) with 1%Q in U.
    assert (H1 : (inject_Z (-1) < inject_Z (Qfloor (Qabs q)))%Q).
    { change (inject_Z (-1)) with (-1 # 1)%Q. lra. }
    assert (H2 : (inject_Z (Qfloor (Qabs q)) < inject_Z 1)%Q).
    { change (inject_Z 1) with 1%Q. lra. }
    rewrite <- Zlt_Qlt in H1, H2. lia. }
  split; [ exact W | ].
  unfold rendered_cents. rewrite W. change (inject_Z 0) with 0%Q.
  assert (F0 : (0 <= Qabs q - 0)%Q) by lra.
  assert (F1 : (Qabs q - 0 < 1 # 200)%Q) by lra.
  pose proof (binary64_product_nonneg _ F0) as L.
  pose proof (binary64_product_below_half _ F0 F1) as U.
  set (p := binary64_product (Qabs q - 0) (inject_Z 100)) in *.
  pose proof (Qfloor_le (p + (1 # 2))) as Ly.
  pose proof (Qlt_floor (p + (1 # 2))) as Uy.
  rewrite inject_Z_plus in Uy. change (inject_Z 1) with 1%Q in Uy.
  remember (Qfloor (p + (1 # 2))) as c eqn:Ec. clear Ec.
  assert (H1 : (inject_Z (-1) < inject_Z c)%Q).
  { change (inject_Z (-1)) with (-1 # 1)%Q. lra. }
  assert (H2 : (inject_Z c < inject_Z 1)%Q).
  { change (inject_Z 1) with 1%Q. lra. }
  rewrite <- Zlt_Qlt in H1, H2. lia.
Qed.

(** X13.  An amount other than 0 but below half a centime has no words:
    the result is the empty string, or [moins ] alone, with its space, for a
    negative amount. *)
Theorem madToWords_below_half_centime (q : Q) :
  ~ (q == 0)%Q -> (Qabs q < 1 # 200)%Q ->
  madToWords (VNumber (Finite q))
  = Normal (if Qlt_bool q 0 then lit "moins " else []).
Proof.
  intros N H. rewrite (madToWords_finite q N).
  destruct (small_amount_parts q H) as [ W C ]. rewrite W, C.
  unfold sign_word. change (trim _) with (@nil Z).
  rewrite app_nil_r. reflexivity.
Qed.

Lemma madToWords_below_half_centime_witness :
  madToWords (VNumber (Finite (- 1 # 1000))) = Normal (lit "moins ")
  /\ madToWords (VNumber (Finite (4 # 1000))) = Normal [].
Proof.
  split.
  - apply (madToWords_below_half_centime (- 1 # 1000)).
    + intros E. discriminate E.
    + reflexivity.
  - apply (madToWords_below_half_centime (4 # 1000)).
    + intros E. discriminate E.
    + reflexivity.
Defined.

Lemma check_undefined_all :
  forallb check_undefined (map Z.of_nat (seq 1 999)) = true.
Proof. vm_compute. reflexivity. Qed.

(** X14.  The words of an integer amount from 1 to 999 contain [undefined]
    exactly when its last two digits are 90 to 99: the unit words stop at
    nine and the converter reads the word of the number minus 80. *)
Theorem madToWords_nineties (n : Z) :
  1 <= n <= 999 ->
  exists t, madToWords (VNumber (ofZ n)) = Normal t
            /\ (isInfixOf (lit "undefined") t = true <-> 90 <= n mod 100).
Proof.
  intros H.
  pose proof (forallb_range check_undefined 1 999 check_undefined_all n) as C.
  unfold check_undefined in C.
  destruct (proj1 (madToWords_normal (VNumber (ofZ n)))) as (t & E).
  exists t. split; [ exact E | ].
  rewrite E in C. simpl result_string in C.
  specialize (C ltac:(simpl; lia)). apply eqb_prop in C. rewrite C.
  apply Z.leb_le.
Qed.

Lemma madToWords_nineties_witness :
  madToWords (VNumber (ofZ 91))
  = Normal (lit "quatre-vingt-undefined dirhams")
  /\ madToWords (VNumber (ofZ 89)) = Normal (lit "quatre-vingt-neuf dirhams").
Proof.
  destruct (madToWords_nineties 91 ltac:(lia)) as (t & E & _).
  split; vm_compute; reflexivity.
Defined.

Lemma check_thousands_all :
  forallb check_thousands (map Z.of_nat (seq 1 999)) = true.
Proof. vm_compute. reflexivity. Qed.

(** X15.  The words of the thousands, 1000 to 999000: [mille] alone for
    1000, never preceded by [un], and the words of the count followed by
    [mille], without plural, for the others; then two spaces, since the rest
    is empty, and [dirhams]. *)
Theorem madToWords_thousands (k : Z) :
  1 <= k <= 999 ->
  madToWords (VNumber (ofZ (1000 * k))) = Normal (thousands_words k).
Proof.
  intros H.
  pose proof (forallb_range check_thousands 1 999 check_thousands_all k) as C.
  unfold check_thousands in C.
  destruct (proj1 (madToWords_normal (VNumber (ofZ (1000 * k))))) as (t & E).
  rewrite E in *. simpl result_string in C.
  specialize (C ltac:(simpl; lia)). apply str_eqb_eq in C. congruence.
Qed.

Lemma madToWords_thousands_witness :
  madToWords (VNumber (ofZ 1000)) = Normal (lit "mille  dirhams")
  /\ madToWords (VNumber (ofZ 2000)) = Normal (lit "deux mille  dirhams").
Proof.
  split.
  - apply (madToWords_thousands 1). lia.
  - apply (madToWords_thousands 2). lia.
Defined.

Lemma index_units_large (k : Z) : 10 <= k -> index units (ofZ k) = None.
Proof.
  intros H. unfold index, ofZ. rewrite Qfloor_Z, Qeq_bool_refl.
  destruct (Z.leb_spec 0 k); [ | lia ]. cbn [andb].
  apply nth_error_None. simpl length. lia.
Qed.

Lemma group_words_large (m : Z) :
  1000 <= m -> exists tail, group_words m = lit "undefined cent" ++ tail.
Proof.
  intros H. unfold group_words, convertLessThanThousand.
  rewrite !ge_ofZ.
  rewrite (proj2 (Z.leb_le 100 m)) by lia.
  rewrite (proj2 (Z.leb_le 200 m)) by lia.
  rewrite div_ofZ_floor, index_units_large
    by (apply Z.div_le_lower_bound; lia).
  destruct (Num.gt (Num.rem (ofZ m) (ofZ 100)) (ofZ 0));
    repeat match goal with
           | |- context [ if ?b then _ else _ ] => destruct b
           end;
    eexists; cbn [to_str]; rewrite <- ?app_assoc; reflexivity.
Qed.

Lemma dropWhile_app_stop (f : Z -> bool) (a b : jsstring) (c : Z) :
  f c = false -> exists t, dropWhile f (a ++ c :: b) = t ++ c :: b.
Proof.
  intros H. induction a as [ | x a IH ].
  - exists []. simpl. rewrite H. reflexivity.
  - simpl. destruct (f x).
    + exact IH.
    + exists (x :: a). reflexivity.
Qed.

Lemma trim_keeps_prefix (c l : Z) (mid s : jsstring) :
  isWhiteSpace c = false -> isWhiteSpace l = false ->
  exists s', trim ((c :: mid ++ [l]) ++ s) = (c :: mid ++ [l]) ++ s'.
Proof.
  intros Hc Hl. unfold trim.
  assert (E : dropWhile isWhiteSpace ((c :: mid ++ [l]) ++ s)
              = (c :: mid ++ [l]) ++ s).
  { simpl. rewrite Hc. reflexivity. }
  rewrite E.
  assert (R : rev ((c :: mid ++ [l]) ++ s)
              = rev s ++ l :: rev (c :: mid)).
  { rewrite rev_app_distr. f_equal.
    change (c :: mid ++ [l]) with ((c :: mid) ++ [l]).
    rewrite rev_app_distr. reflexivity. }
  rewrite R.
  destruct (dropWhile_app_stop isWhiteSpace (rev s) (rev (c :: mid)) l Hl)
    as (t & D).
  rewrite D. exists (rev t).
  rewrite rev_app_distr. f_equal.
  change (l :: rev (c :: mid)) with ([l] ++ rev (c :: mid)).
  rewrite rev_app_distr, rev_involutive. reflexivity.
Qed.

Lemma integer_parts (n : Z) :
  0 <= n -> whole_part (inject_Z n) = n /\ rendered_cents (inject_Z n) = 0.
Proof.
  intros H.
  assert (A : Qabs (inject_Z n) = inject_Z n).
  { unfold Qabs, inject_Z. rewrite Z.abs_eq by exact H. reflexivity. }
  assert (W : whole_part (inject_Z n) = n).
  { unfold whole_part. rewrite A. apply Qfloor_Z. }
  split; [ exact W | ].
  unfold rendered_cents. rewrite W, A.
  assert (E : (binary64_product (inject_Z n - inject_Z n) (inject_Z 100)
               + (1 # 2) == 1 # 2)%Q).
  { rewrite binary64_product_zero; [ reflexivity | ring ]. }
  rewrite (Qfloor_comp _ _ E). reflexivity.
Qed.

(** X16.  The converter has words for less than a thousand millions: the
    words of every integer amount from 1000000000 on start with
    [undefined cent]. *)
Theorem madToWords_from_a_thousand_millions (n : Z) :
  1000000000 <= n ->
  exists rest,
    madToWords (VNumber (ofZ n)) = Normal (lit "undefined cent" ++ rest).
Proof.
  intros H. unfold ofZ.
  assert (N : ~ (inject_Z n == 0)%Q).
  { intros E. apply Qeq_bool_iff in E. change 0%Q with (inject_Z 0) in E.
    rewrite Qeq_bool_inject_Z in E. apply Z.eqb_eq in E. lia. }
  rewrite (madToWords_finite _ N).
  destruct (integer_parts n ltac:(lia)) as [ W C ]. rewrite W, C.
  assert (S : sign_word (inject_Z n) = []).
  { unfold sign_word, Qlt_bool. change 0%Q with (inject_Z 0).
    rewrite Qle_bool_inject_Z. destruct (Z.leb_spec 0 n); [ reflexivity | lia ]. }
  rewrite S. unfold dirham_segment, whole_words.
  destruct (Z.ltb_spec 0 n); [ | lia ]. cbv zeta.
  assert (M : 1000 <= n / 1000000) by (apply Z.div_le_lower_bound; lia).
  destruct (Z.ltb_spec 0 (n / 1000000)); [ | lia ].
  destruct (group_words_large _ M) as (tail & G). rewrite G.
  rewrite <- !app_assoc. cbn [app].
  change (lit "undefined cent") with (117 :: lit "ndefined cen" ++ [116]).
  match goal with
  | |- exists rest, Normal (trim (?p ++ ?s)) = _ =>
      destruct (trim_keeps_prefix 117 116 (lit "ndefined cen") s
                  eq_refl eq_refl) as (s' & T)
  end.
  exists s'. rewrite T. reflexivity.
Qed.

Lemma madToWords_from_a_thousand_millions_witness :
  exists rest,
    madToWords (VNumber (ofZ 1000000000))
    = Normal (lit "undefined cent" ++ rest).
Proof.
  apply (madToWords_from_a_thousand_millions 1000000000). lia.
Defined.

(** X17.  What [madToWords] renders is the amount to the nearest centime,
    up to the rounding of one product of doubles: for a finite amount other
    than 0 and below 2^53 in absolute value, the words are those of a whole
    number of dirhams and a number of centimes from 0 to 100 that are
    together within half a centime plus 2^-47 centime of the absolute
    amount. *)
Theorem madToWords_rendered_amount (q : Q) :
  ~ (q == 0)%Q -> (Qabs q < inject_Z (2 ^ 53))%Q ->
  exists whole cents,
    0 <= whole /\ 0 <= cents <= 100
    /\ (Qabs (Qabs q * inject_Z 100 - inject_Z (100 * whole + cents))
        <= (1 # 2) + (1 # 2 ^ 47))%Q
    /\ madToWords (VNumber (Finite q))
       = Normal
           (sign_word q
            ++ trim (dirham_segment whole
                     ++ conjunction_segment whole cents
                     ++ cents_segment cents)).
Proof.
  intros N _. exists (whole_part q), (rendered_cents q).
  destruct (rendered_cents_range q) as [ C A ].
  split; [ apply whole_part_nonneg | ].
  split; [ exact C | ]. split; [ exact A | ].
  apply madToWords_finite. exact N.
Qed.

Lemma madToWords_rendered_amount_witness :
  exists whole cents,
    0 <= whole /\ 0 <= cents <= 100
    /\ (Qabs (Qabs double_0_015 * inject_Z 100
              - inject_Z (100 * whole + cents))
        <= (1 # 2) + (1 # 2 ^ 47))%Q
    /\ madToWords (VNumber (Finite double_0_015))
       = Normal
           (sign_word double_0_015
            ++ trim (dirham_segment whole
                     ++ conjunction_segment whole cents
                     ++ cents_segment cents)).
Proof.
  apply (madToWords_rendered_amount double_0_015).
  - intros E. discriminate E.
  - reflexivity.
Defined.

(** ** Which failure the validators report *)

Lemma isValidRIB_try_string (banks : list BankDetails) (rib : jsstring) :
  isValidRIB_try banks (VString rib)
  = let clean := normalizeRIB rib in
    match find_bank banks (firstn 3 clean) with
    | None => Throw (BankValidationException BANK_NOT_FOUND)
    | Some bank =>
        if negb (Z.of_nat (length clean) =? ribLength bank)
        then Throw (BankValidationException INVALID_RIB_LENGTH)
        else if negb (ribRegex bank clean)
        then Throw (BankValidationException INVALID_RIB_FORMAT)
        else if negb (rib_key_test clean)
        then Throw (BankValidationException INVALID_RIB_CHECKSUM)
        else Normal true
    end.
Proof.
  cbv zeta. set (clean := normalizeRIB rib).
  set (code3 := firstn 3 clean).
  unfold isValidRIB_try. cbn [call_replace string_receiver bind].
  fold (normalizeRIB rib). fold clean.
  rewrite substring_prefix3. fold code3.
  destruct (find_bank banks code3) as [ bank | ]; [ | reflexivity ].
  unfold throw_if.
  destruct (Z.of_nat (length clean) =? ribLength bank); [ | reflexivity ].
  destruct (ribRegex bank clean); [ | reflexivity ].
  cbn [negb]. fold rib_code_step.
  fold (rib_code_remainder clean). fold (rib_key_test clean).
  destruct (rib_key_test clean); reflexivity.
Qed.

(** X18.  The failure the [try] block of [isValidRIB] reports.  An argument
    that has no method [replace] (undefined, null, a boolean, a number, a
    bigint, a symbol, an object without it) fails with the TypeError of the
    language, not with a code of the module; when the method [replace] of
    the argument throws, the block fails with the value thrown.  On a string
    and on a String object the first check that fails decides:
    [BANK_NOT_FOUND] when no active bank has the first three characters as
    code; [INVALID_RIB_LENGTH] when the bank is found and the length is not
    its RIB length; [INVALID_RIB_FORMAT] when the length is right and the
    pattern does not match; [INVALID_RIB_CHECKSUM] when only the key is
    wrong. *)
Theorem isValidRIB_failures (banks : list BankDetails) (v : JSValue) :
  (has_replace v = false -> isValidRIB_try banks v = Throw TypeError)
  /\ (forall e, call_replace v isWhiteSpaceOrHyphen = Throw e ->
                isValidRIB_try banks v = Throw e)
  /\ (forall rib, v = VString rib \/ v = VStringObject rib ->
        let clean := normalizeRIB rib in
        let found := find_bank banks (firstn 3 clean) in
        (isValidRIB_try banks v
         = Throw (BankValidationException BANK_NOT_FOUND)
         <-> found = None)
        /\ (isValidRIB_try banks v
            = Throw (BankValidationException INVALID_RIB_LENGTH)
            <-> exists bank, found = Some bank
                             /\ Z.of_nat (length clean) <> ribLength bank)
        /\ (isValidRIB_try banks v
            = Throw (BankValidationException INVALID_RIB_FORMAT)
            <-> exists bank, found = Some bank
                             /\ Z.of_nat (length clean) = ribLength bank
                             /\ ribRegex bank clean = false)
        /\ (isValidRIB_try banks v
            = Throw (BankValidationException INVALID_RIB_CHECKSUM)
            <-> exists bank, found = Some bank
                             /\ Z.of_nat (length clean) = ribLength bank
                             /\ ribRegex bank clean = true
                             /\ ~ rib_key_matches clean)).
Proof.
  split; [ | split ].
  - destruct v as [ | | | | | | | | [ m | ] ]; intros H;
      try discriminate H; reflexivity.
  - intros e H. unfold isValidRIB_try. rewrite H. reflexivity.
  - intros rib V clean found.
    assert (E : isValidRIB_try banks v = isValidRIB_try banks (VString rib))
      by (destruct V as [ -> | -> ]; reflexivity).
    rewrite E. clear E V v.
    rewrite isValidRIB_try_string. cbv zeta.
    fold clean. fold found.
    pose proof (rib_key_test_spec clean (normalizeRIB_clean rib)) as K.
    destruct found as [ bank | ].
    + destruct (Z.eqb_spec (Z.of_nat (length clean)) (ribLength bank))
        as [ L | L ]; cbn [negb];
        [ destruct (ribRegex bank clean) eqn:R; cbn [negb];
          [ destruct (rib_key_test clean) eqn:T; cbn [negb] | ] | ];
        repeat split; intros;
        first
          [ discriminate
          | reflexivity
          | match goal with
            | H : exists _, _ |- _ =>
                destruct H as (? & E & ?); injection E as <-;
                intuition (discriminate || congruence)
            end
          | exists bank; intuition (discriminate || congruence) ].
    + repeat split; intros;
        first
          [ discriminate
          | reflexivity
          | match goal with
            | H : exists _, _ |- _ =>
                destruct H as (? & E & ?); discriminate E
            end ].
Qed.

Lemma isValidIBAN_try_string (banks : list BankDetails)
  (toUpperCase : jsstring -> jsstring) (s : jsstring) :
  isValidIBAN_try banks toUpperCase (VString s)
  = let c := normalizeIBAN toUpperCase s in
    if negb (test_MA26 c)
    then Throw (BankValidationException INVALID_IBAN_FORMAT)
    else
      match find_bank banks (substring c 4 7) with
      | None => Throw (BankValidationException INVALID_BANK_CODE)
      | Some bank =>
          if negb (ibanRegex bank c)
          then Throw (BankValidationException INVALID_IBAN_FORMAT)
          else if negb (Num.strict_eq (remainder_of_iban c) (ofZ 1))
          then Throw (BankValidationException INVALID_IBAN_CHECKSUM)
          else Normal true
      end.
Proof.
  unfold isValidIBAN_try, normalizeIBAN. simpl.
  destruct (test_MA26 _); simpl; [ | reflexivity ].
  destruct (find_bank _ _) as [ bank | ]; simpl; [ | reflexivity ].
  destruct (ibanRegex bank _); simpl; [ | reflexivity ].
  unfold remainder_of_iban, numeric_of_iban.
  destruct (Num.strict_eq _ _); reflexivity.
Qed.

Ltac open_hypotheses :=
  repeat match goal with
         | H : _ /\ _ |- _ => destruct H
         | H : _ \/ _ |- _ => destruct H
         | H : exists _, _ |- _ => destruct H as (? & ?)
         | H : Some _ = Some _ |- _ => injection H as <-
         end.

(** X19.  The failure the [try] block of [isValidIBAN] reports.  An
    argument that is not a string fails with [INVALID_INPUT_TYPE].  On a
    string, with its normalised form: [INVALID_IBAN_FORMAT] when the form is
    not [MA] and 26 digits, or when the bank is found and its pattern does
    not match; [INVALID_BANK_CODE] when the form is right and no active bank
    has the code; [INVALID_IBAN_CHECKSUM] when only the remainder is not
    1. *)
Theorem isValidIBAN_failures (banks : list BankDetails)
  (toUpperCase : jsstring -> jsstring) (v : JSValue) :
  (typeof v <> TString ->
   isValidIBAN_try banks toUpperCase v
   = Throw (BankValidationException INVALID_INPUT_TYPE))
  /\ (forall s, v = VString s ->
        let c := normalizeIBAN toUpperCase s in
        let found := find_bank banks (bank_code_of_iban c) in
        (isValidIBAN_try banks toUpperCase v
         = Throw (BankValidationException INVALID_IBAN_FORMAT)
         <-> ~ MA_26_digits c
             \/ exists bank, found = Some bank /\ ibanRegex bank c = false)
        /\ (isValidIBAN_try banks toUpperCase v
            = Throw (BankValidationException INVALID_BANK_CODE)
            <-> MA_26_digits c /\ found = None)
        /\ (isValidIBAN_try banks toUpperCase v
            = Throw (BankValidationException INVALID_IBAN_CHECKSUM)
            <-> MA_26_digits c
                /\ exists bank, found = Some bank
                                /\ ibanRegex bank c = true
                                /\ iso7064_remainder c <> 1)).
Proof.
  split.
  - destruct v; intros H; try reflexivity. exfalso. apply H. reflexivity.
  - intros s -> c found. rewrite isValidIBAN_try_string. cbv zeta. fold c.
    destruct (test_MA26 c) eqn:T; cbn [negb].
    + apply test_MA26_spec in T.
      destruct (MA_26_digits_shape c T) as (E & _). rewrite E. fold found.
      pose proof (remainder_of_iban_spec c T) as R.
      destruct found as [ bank | ].
      * destruct (ibanRegex bank c) eqn:P; cbn [negb].
        -- rewrite R, strict_eq_ofZ.
           destruct (Z.eqb_spec (iso7064_remainder c) 1) as [ Q | Q ];
             cbn [negb]; repeat split; intros; open_hypotheses;
             try discriminate; try contradiction; try congruence; eauto.
        -- repeat split; intros; open_hypotheses;
             try discriminate; try contradiction; try congruence; eauto.
      * repeat split; intros; open_hypotheses;
          try discriminate; try contradiction; try congruence; eauto.
    + assert (N : ~ MA_26_digits c).
      { intros M. apply test_MA26_spec in M. congruence. }
      repeat split; intros; open_hypotheses;
        try discriminate; try contradiction; try congruence; eauto.
Qed.
